(** * A shallow embedding of the Tetris simulation engine of [tetris.py]

    The engine is the part of the program that does not touch pygame:
    [Position], [Cell], [World], [Tetrimino], [TetriminoFactory],
    [GameState], [calculate_score_increase] and [handle_player_input].

    Conventions of the embedding.
    - Python [int] is [Z]; [range(n)] is [seqZ 0 n] (empty for [n <= 0]).
    - The [Dict[Position, Cell]] of a [World] is a [gmap Position Cell].
    - An [Iterable[Position]] (tuple, list or generator) is the [list] of
      the positions it yields, in order.
    - A call that may raise or loop returns a [res]: [Ok v] for a normal
      return, [Raise e] for an exception that reaches the caller, and
      [OutOfFuel] when the fuel given to a [while] loop is exhausted.
    - [random.choice] is not modelled: an operation that draws pieces takes
      the drawn shapes as arguments, in the order the calls are made.
    - [print] and the pygame mixer are outside the engine and are dropped. *)

From stdpp Require Import gmap list fin_maps.
From Stdlib Require Import ZArith Lia.

Local Open Scope Z_scope.

(** ** Results of calls that may raise or diverge *)

Inductive exn := KeyError | AssertionError.

Inductive res (A : Type) : Type :=
| Ok (a : A)
| Raise (e : exn)
| OutOfFuel.
Arguments Ok {A} a.
Arguments Raise {A} e.
Arguments OutOfFuel {A}.

Definition res_bind {A B} (m : res A) (k : A → res B) : res B :=
  match m with
  | Ok a => k a
  | Raise e => Raise e
  | OutOfFuel => OutOfFuel
  end.

Notation "'let*' x ':=' m 'in' k" := (res_bind m (λ x, k))
  (at level 10, x pattern, m at level 100, k at level 200).

(** ** Position *)

Record Position := mkPosition { pos_x : Z; pos_y : Z }.

Global Instance Position_eq_dec : EqDecision Position.
Proof. solve_decision. Defined.

Global Instance Position_countable : Countable Position.
Proof.
  refine (inj_countable' (λ p, (pos_x p, pos_y p))
                         (λ q, mkPosition q.1 q.2) _).
  by intros [].
Defined.

(** [translate] with a [Position] argument (the only form the engine uses). *)
Definition translate (self other : Position) : Position :=
  mkPosition (pos_x self + pos_x other) (pos_y self + pos_y other).

Definition rot_left (self : Position) : Position :=
  mkPosition (- pos_y self) (pos_x self).

Definition rot_right (self : Position) : Position :=
  mkPosition (pos_y self) (- pos_x self).

(** ** Cell *)

Record Color := mkColor { red : Z; green : Z; blue : Z }.

Global Instance Color_eq_dec : EqDecision Color.
Proof. solve_decision. Defined.

Record Cell := mkCell { color : Color; solid : bool }.

Global Instance Cell_eq_dec : EqDecision Cell.
Proof. solve_decision. Defined.

Definition BACKGROUND_CELL : Cell := mkCell (mkColor 0 0 0) false.

Global Instance Cell_inhabited : Inhabited Cell := populate BACKGROUND_CELL.

(** ** World *)

Record World := mkWorld {
  grid : gmap Position Cell;
  width : Z;
  height : Z
}.

Definition set_grid (w : World) (g : gmap Position Cell) : World :=
  mkWorld g (width w) (height w).

(** [World.__init__]: the two nested [for] loops, [x] outermost. *)
Definition init_column (h : Z) (g : gmap Position Cell) (x : Z)
  : gmap Position Cell :=
  foldl (λ g y, <[mkPosition x y := BACKGROUND_CELL]> g) g (seqZ 0 h).

Definition init_grid (w h : Z) : gmap Position Cell :=
  foldl (init_column h) ∅ (seqZ 0 w).

Definition World_init (w h : Z) : World := mkWorld (init_grid w h) w h.

(** [World()] with the default arguments. *)
Definition World_default : World := World_init 10 20.

Definition pos_is_free (self : World) (pos : Position) : bool :=
  match grid self !! pos with
  | Some c => negb (solid c)
  | None => false
  end.

Definition stamp_one (c : Color) (self : World) (pos : Position) : World :=
  if pos_is_free self pos
  then set_grid self (<[pos := mkCell c true]> (grid self))
  else self.

Definition stamp (c : Color) (positions : list Position) (self : World)
  : World :=
  foldl (stamp_one c) self positions.

(** The row test of [clean_full_lines]: the inner [for x] loop with its
    [break].  A missing key raises [KeyError] at the first [x] reached. *)
Fixpoint row_full_from (g : gmap Position Cell) (y : Z) (xs : list Z)
  : res bool :=
  match xs with
  | [] => Ok true
  | x :: xs' =>
      match g !! mkPosition x y with
      | None => Raise KeyError
      | Some c => if solid c then row_full_from g y xs' else Ok false
      end
  end.

Definition row_full (self : World) (y : Z) : res bool :=
  row_full_from (grid self) y (seqZ 0 (width self)).

(** One assignment of the collapse: [grid[(x, ty)] = BACKGROUND_CELL] for
    [ty == 0], [grid[(x, ty)] = grid[(x, ty - 1)]] otherwise. *)
Definition shift_cell (ty : Z) (g : gmap Position Cell) (x : Z)
  : res (gmap Position Cell) :=
  if decide (ty = 0) then Ok (<[mkPosition x ty := BACKGROUND_CELL]> g)
  else match g !! mkPosition x (ty - 1) with
       | Some c => Ok (<[mkPosition x ty := c]> g)
       | None => Raise KeyError
       end.

Fixpoint shift_row (ty : Z) (xs : list Z) (g : gmap Position Cell)
  : res (gmap Position Cell) :=
  match xs with
  | [] => Ok g
  | x :: xs' => let* g' := shift_cell ty g x in shift_row ty xs' g'
  end.

Fixpoint shift_rows (tys : list Z) (xs : list Z) (g : gmap Position Cell)
  : res (gmap Position Cell) :=
  match tys with
  | [] => Ok g
  | ty :: tys' => let* g' := shift_row ty xs g in shift_rows tys' xs g'
  end.

(** [range(y, -1, -1)]: [y, y-1, ..., 0]. *)
Definition range_down (y : Z) : list Z := reverse (seqZ 0 (y + 1)).

(** The body of [if row_full:] apart from the counter. *)
Definition collapse (self : World) (y : Z) : res World :=
  let* g := shift_rows (range_down y) (seqZ 0 (width self)) (grid self) in
  Ok (set_grid self g).

(** The [while y >= 0] loop; one unit of fuel per iteration. *)
Fixpoint clean_loop (fuel : nat) (self : World) (y line_count : Z)
  : res (World * Z) :=
  match fuel with
  | O => OutOfFuel
  | S fuel' =>
      if decide (0 ≤ y) then
        let* full := row_full self y in
        if full : bool then
          let* self' := collapse self y in
          clean_loop fuel' self' y (line_count + 1)
        else clean_loop fuel' self (y - 1) line_count
      else Ok (self, line_count)
  end.

Definition clean_full_lines (fuel : nat) (self : World) : res (World * Z) :=
  clean_loop fuel self (height self - 1) 0.

(** ** Tetrimino *)

Inductive RotationStrategy := NO_ROTATION | THREE_BY_THREE.

Global Instance RotationStrategy_eq_dec : EqDecision RotationStrategy.
Proof. solve_decision. Defined.

(** [MOVE_OFFSETS] *)
Definition MOVE_LEFT : Position := mkPosition (-1) 0.
Definition MOVE_RIGHT : Position := mkPosition 1 0.
Definition MOVE_DOWN : Position := mkPosition 0 1.

Record Tetrimino := mkTetrimino {
  center_pos : Position;
  block_offsets : list Position;
  piece_color : Color;
  rotation_strategy : RotationStrategy
}.

Definition blocks (self : Tetrimino) : list Position :=
  map (translate (center_pos self)) (block_offsets self).

(** [is_legal_in]: the [for] loop with its early [return False]. *)
Fixpoint all_free (world : World) (bs : list Position) : bool :=
  match bs with
  | [] => true
  | b :: bs' => if pos_is_free world b then all_free world bs' else false
  end.

Definition is_legal_in (self : Tetrimino) (world : World) : bool :=
  all_free world (blocks self).

Definition move_offset (self : Tetrimino) (offset : Position) : Tetrimino :=
  mkTetrimino (translate (center_pos self) offset) (block_offsets self)
              (piece_color self) (rotation_strategy self).

Definition rotate_left (self : Tetrimino) : Tetrimino :=
  match rotation_strategy self with
  | NO_ROTATION => self
  | THREE_BY_THREE =>
      mkTetrimino (center_pos self) (map rot_left (block_offsets self))
                  (piece_color self) (rotation_strategy self)
  end.

Definition rotate_right (self : Tetrimino) : Tetrimino :=
  match rotation_strategy self with
  | NO_ROTATION => self
  | THREE_BY_THREE =>
      mkTetrimino (center_pos self) (map rot_right (block_offsets self))
                  (piece_color self) (rotation_strategy self)
  end.

(** The seven piece constructors. *)
Definition XY (x y : Z) : Position := mkPosition x y.

Definition o_piece : Tetrimino :=
  mkTetrimino (XY 4 2) [XY 0 0; XY 0 1; XY 1 0; XY 1 1]
              (mkColor 255 213 0) NO_ROTATION.
Definition l_piece : Tetrimino :=
  mkTetrimino (XY 4 2) [XY 0 0; XY (-1) 0; XY 1 0; XY 1 1]
              (mkColor 114 203 59) THREE_BY_THREE.
Definition rl_piece : Tetrimino :=
  mkTetrimino (XY 4 2) [XY 0 0; XY (-1) 0; XY 1 0; XY (-1) 1]
              (mkColor 255 151 28) THREE_BY_THREE.
Definition i_piece : Tetrimino :=
  mkTetrimino (XY 4 2) [XY 0 0; XY (-1) 0; XY 1 0; XY 2 0]
              (mkColor 3 65 174) THREE_BY_THREE.
Definition t_piece : Tetrimino :=
  mkTetrimino (XY 4 2) [XY 0 0; XY (-1) 0; XY 1 0; XY 0 1]
              (mkColor 145 79 166) THREE_BY_THREE.
Definition s_piece : Tetrimino :=
  mkTetrimino (XY 4 2) [XY 0 0; XY (-1) 0; XY 0 1; XY 1 1]
              (mkColor 255 193 124) THREE_BY_THREE.
Definition z_piece : Tetrimino :=
  mkTetrimino (XY 4 2) [XY 0 0; XY 1 0; XY 0 1; XY (-1) 1]
              (mkColor 255 50 19) THREE_BY_THREE.

(** ** TetriminoFactory *)

(** What one call of [random.choice] over the seven constructors returns. *)
Inductive Shape := ShO | ShL | ShRL | ShI | ShT | ShS | ShZ.

(** [_choose], given the outcome of its [choice]. *)
Definition _choose (d : Shape) : Tetrimino :=
  match d with
  | ShO => o_piece | ShL => l_piece | ShRL => rl_piece | ShI => i_piece
  | ShT => t_piece | ShS => s_piece | ShZ => z_piece
  end.

Record TetriminoFactory := mkFactory { next_tetrimino : Tetrimino }.

Definition factory_create (d : Shape) : TetriminoFactory :=
  mkFactory (_choose d).

Definition pop_next_tetrimino (d : Shape) (self : TetriminoFactory)
  : Tetrimino * TetriminoFactory :=
  (next_tetrimino self, mkFactory (_choose d)).

Definition factory_reset (d : Shape) (self : TetriminoFactory)
  : TetriminoFactory :=
  mkFactory (_choose d).

(** ** Scoring *)

(** The [assert] is executed (Python run without [-O]); its failure is the
    [AssertionError] the caller sees. *)
Definition calculate_score_increase (cleared_lines : Z) : res Z :=
  if decide (0 ≤ cleared_lines ≤ 4) then
    if decide (cleared_lines = 1) then Ok 100
    else if decide (cleared_lines = 2) then Ok 200
    else if decide (cleared_lines = 3) then Ok 400
    else if decide (cleared_lines = 4) then Ok 800
    else Ok 0
  else Raise AssertionError.

(** ** GameState *)

Record GameState := mkGameState {
  world : World;
  score : Z;
  tetrimino : Tetrimino;
  running : bool;
  level : Z;
  lines_cleared : Z;
  t_factory : TetriminoFactory
}.

(** [GameState.create]: [d1] is drawn by [TetriminoFactory.create], [d2] by
    the [pop_next_tetrimino] that follows. *)
Definition GameState_create (d1 d2 : Shape) : GameState :=
  let f := factory_create d1 in
  let '(t, f') := pop_next_tetrimino d2 f in
  mkGameState World_default 0 t true 1 0 f'.

(** [GameState.reset]: [d1] is drawn by [t_factory.reset()], [d2] by the
    [pop_next_tetrimino] that follows. *)
Definition reset (d1 d2 : Shape) (self : GameState) : GameState :=
  let w := World_init (width (world self)) (height (world self)) in
  let f := factory_reset d1 (t_factory self) in
  let '(t, f') := pop_next_tetrimino d2 f in
  mkGameState w 0 t true 1 0 f'.

(** [_add_cleared_lines]; [math.floor(n / 10)] is the floored quotient
    (exact as long as the float division is, below 2^53).
    The assertion of the scoring function is reached after the two counters
    were assigned; the exception ends the program, so no state is kept. *)
Definition _add_cleared_lines (lines : Z) (self : GameState) : res GameState :=
  let lc := lines_cleared self + lines in
  let lv := 1 + lc `div` 10 in
  let* inc := calculate_score_increase lines in
  Ok (mkGameState (world self) (score self + inc) (tetrimino self)
                  (running self) lv lc (t_factory self)).

(** [update_state]; [d] is the shape drawn if a piece is popped. *)
Definition update_state (fuel : nat) (d : Shape) (self : GameState)
  : res GameState :=
  if running self then
    let new_tetrimino := move_offset (tetrimino self) MOVE_DOWN in
    if is_legal_in new_tetrimino (world self) then
      Ok (mkGameState (world self) (score self) new_tetrimino (running self)
                      (level self) (lines_cleared self) (t_factory self))
    else
      let w1 := stamp (piece_color (tetrimino self)) (blocks (tetrimino self))
                      (world self) in
      let* cleaned := clean_full_lines fuel w1 in
      let '(w2, lines) := cleaned in
      let* s1 := _add_cleared_lines lines
                   (mkGameState w2 (score self) (tetrimino self) (running self)
                                (level self) (lines_cleared self)
                                (t_factory self)) in
      let '(t, f') := pop_next_tetrimino d (t_factory s1) in
      Ok (mkGameState (world s1) (score s1) t
                      (if is_legal_in t (world s1) then running s1 else false)
                      (level s1) (lines_cleared s1) f')
  else Ok self.

(** ** Input handling *)

Inductive Key :=
| K_LEFT | K_RIGHT | K_SPACE | K_UP | K_DOWN | K_r | K_s
| K_other (code : Z).

(** The [while] of the hard drop. *)
Fixpoint hard_drop (fuel : nat) (w : World) (t : Tetrimino) : res Tetrimino :=
  match fuel with
  | O => OutOfFuel
  | S fuel' =>
      if is_legal_in (move_offset t MOVE_DOWN) w
      then hard_drop fuel' w (move_offset t MOVE_DOWN)
      else Ok t
  end.

Definition set_tetrimino (self : GameState) (t : Tetrimino) : GameState :=
  mkGameState (world self) (score self) t (running self) (level self)
              (lines_cleared self) (t_factory self).

(** The final [if new_tetrimino and new_tetrimino.is_legal_in(...)]: an
    instance of the dataclass is always truthy, so only [None] fails the
    first test. *)
Definition accept (self : GameState) (new_tetrimino : option Tetrimino)
  : GameState :=
  match new_tetrimino with
  | Some t => if is_legal_in t (world self) then set_tetrimino self t else self
  | None => self
  end.

(** [handle_player_input]; [d1], [d2] are the draws of a reset. *)
Definition handle_player_input (fuel : nat) (d1 d2 : Shape)
    (game_state : GameState) (key : Key) : res (GameState * bool) :=
  match key with
  | K_LEFT =>
      Ok (accept game_state
            (Some (move_offset (tetrimino game_state) MOVE_LEFT)), false)
  | K_RIGHT =>
      Ok (accept game_state
            (Some (move_offset (tetrimino game_state) MOVE_RIGHT)), false)
  | K_SPACE =>
      let* t := hard_drop fuel (world game_state) (tetrimino game_state) in
      Ok (accept game_state (Some t), true)
  | K_UP =>
      Ok (accept game_state (Some (rotate_right (tetrimino game_state))), false)
  | K_DOWN =>
      Ok (accept game_state
            (Some (move_offset (tetrimino game_state) MOVE_DOWN)), false)
  | K_r => Ok (accept (reset d1 d2 game_state) None, false)
  | K_s => Ok (accept game_state None, false)
  | K_other _ => Ok (accept game_state None, false)
  end.

(** * Vocabulary of the statements *)

(** ** The rectangle of a world and the invariant of its mapping *)

Definition in_bounds (w : World) (p : Position) : Prop :=
  (0 ≤ pos_x p < width w) ∧ (0 ≤ pos_y p < height w).

Global Instance in_bounds_dec w p : Decision (in_bounds w p).
Proof. unfold in_bounds. apply _. Defined.

(** All positions of [[0,W) × [0,H)], in the order [__init__] inserts them. *)
Definition positions (W H : Z) : list Position :=
  x ← seqZ 0 W; (mkPosition x) <$> seqZ 0 H.

(** The same positions row by row, as [rows] reads them. *)
Definition row_major (W H : Z) : list Position :=
  y ← seqZ 0 H; (λ x, mkPosition x y) <$> seqZ 0 W.

(** The mapping has an entry at exactly the positions of the rectangle. *)
Definition wf (w : World) : Prop :=
  ∀ p, is_Some (grid w !! p) ↔ in_bounds w p.

(** Worlds the program can build: the constructor, then any number of
    [stamp] and returning [clean_full_lines] calls. *)
Inductive reachable : World → Prop :=
| reachable_init W H : reachable (World_init W H)
| reachable_stamp c ps w : reachable w → reachable (stamp c ps w)
| reachable_clean fuel w w' n :
    reachable w → clean_full_lines fuel w = Ok (w', n) → reachable w'.


(** A cell that is present and solid. *)
Definition solid_at (g : gmap Position Cell) (p : Position) : Prop :=
  ∃ c, g !! p = Some c ∧ solid c = true.

(** What the collapse writes at column [x] of row [ty]. *)
Definition shifted (g : gmap Position Cell) (x ty : Z) : option Cell :=
  if decide (ty = 0) then Some BACKGROUND_CELL
  else g !! mkPosition x (ty - 1).

(** The grid read row by row, top row first. *)
Definition row_of (w : World) (y : Z) : list Cell :=
  (λ x, grid w !!! mkPosition x y) <$> seqZ 0 (width w).

Definition rows_range (w : World) (a n : Z) : list (list Cell) :=
  row_of w <$> seqZ a n.

Definition rows (w : World) : list (list Cell) :=
  rows_range w 0 (height w).

Definition bg_row (w : World) : list Cell :=
  replicate (Z.to_nat (width w)) BACKGROUND_CELL.

Definition full_row (r : list Cell) : Prop :=
  Forall (λ c, solid c = true) r.

Global Instance full_row_dec r : Decision (full_row r).
Proof. unfold full_row. apply _. Defined.

(** Number of full rows in a list of rows. *)
Definition nfull (R : list (list Cell)) : nat :=
  length (filter full_row R).

(** Number of solid cells in a list of rows. *)
Definition solid_in (R : list (list Cell)) : nat :=
  length (filter (λ c, solid c = true) (concat R)).

(** The total number of solid cells of the mapping. *)
Definition solid_count (g : gmap Position Cell) : nat :=
  length (filter (λ c, solid c = true) (map_to_list g).*2).

(** A piece after [k] moves by [MOVE_DOWN]. *)
Definition moved_down (t : Tetrimino) (k : nat) : Tetrimino :=
  Nat.iter k (λ t', move_offset t' MOVE_DOWN) t.

(** States of a game: [main] creates one and then only calls
    [handle_player_input] and [update_state] on it. *)
Inductive reachable_game : GameState → Prop :=
| reachable_create d1 d2 : reachable_game (GameState_create d1 d2)
| reachable_update fuel d s s' :
    reachable_game s → update_state fuel d s = Ok s' → reachable_game s'
| reachable_input fuel d1 d2 key s s' b :
    reachable_game s → handle_player_input fuel d1 d2 s key = Ok (s', b) →
    reachable_game s'.

(** What holds of a game between two calls. *)
Definition game_inv (s : GameState) : Prop :=
  wf (world s) ∧ width (world s) = 10 ∧ height (world s) = 20
  ∧ nfull (rows (world s)) = 0%nat
  ∧ length (block_offsets (tetrimino s)) = 4%nat
  ∧ (is_legal_in (tetrimino s) (world s) = true
     ∨ (running s = false ∧ ∃ d, tetrimino s = _choose d))
  ∧ level s = 1 + lines_cleared s `div` 10
  ∧ 0 ≤ lines_cleared s ∧ 0 ≤ score s ∧ (100 | score s)
  ∧ ∃ d, next_tetrimino (t_factory s) = _choose d.

(** [n] successive calls of [update_state], as the loop of [main] makes
    them when no key is pressed; [d] is the shape drawn at a lock. *)
Fixpoint tick_n (fuel : nat) (d : Shape) (n : nat) (s : GameState)
  : res GameState :=
  match n with
  | O => Ok s
  | S n' => let* s' := update_state fuel d s in tick_n fuel d n' s'
  end.

(** ** Concrete inputs *)

Definition c1_color : Color := mkColor 255 213 0.

(** A 2 × 3 grid whose bottom row is full and whose middle row holds one
    solid cell. *)
Definition c1_world : World :=
  stamp c1_color [mkPosition 0 2; mkPosition 1 2; mkPosition 0 1]
        (World_init 2 3).

(** A running game on a 10 × 4 grid: the O piece at its spawn position
    rests on the floor, and the T piece waits in the supply. *)
Definition blocked_state : GameState :=
  mkGameState (World_init 10 4) 0 o_piece true 1 0 (mkFactory t_piece).

(** A running game on the default grid with the L piece against the left
    wall. *)
Definition wall_state : GameState :=
  mkGameState World_default 0
              (mkTetrimino (XY 1 2) (block_offsets l_piece)
                           (piece_color l_piece) THREE_BY_THREE)
              true 1 0 (mkFactory o_piece).

(** A running game on a 10 × 6 grid with the O piece at its spawn
    position. *)
Definition drop_state : GameState :=
  mkGameState (World_init 10 6) 0 o_piece true 1 0 (mkFactory t_piece).

(** A running game on a 1 × 5 grid all of whose rows are full. *)
Definition five_rows_state : GameState :=
  mkGameState
    (stamp c1_color
           [mkPosition 0 0; mkPosition 0 1; mkPosition 0 2; mkPosition 0 3;
            mkPosition 0 4]
           (World_init 1 5))
    0 o_piece true 1 0 (mkFactory o_piece).

(** * Lemmas *)

(** ** Construction *)

Lemma elem_of_positions W H p :
  p ∈ positions W H ↔ (0 ≤ pos_x p < W) ∧ (0 ≤ pos_y p < H).
Proof.
  unfold positions. rewrite list_elem_of_bind. split.
  - intros (x & Hp & Hx). apply list_elem_of_fmap in Hp as (y & -> & Hy).
    apply elem_of_seqZ in Hx, Hy. simpl. lia.
  - intros [Hx Hy]. exists (pos_x p). split.
    + apply list_elem_of_fmap. exists (pos_y p). split; [by destruct p|].
      apply elem_of_seqZ. lia.
    + apply elem_of_seqZ. lia.
Qed.

Lemma init_column_lookup_gen (ys : list Z) (g : gmap Position Cell) x p :
  foldl (λ g y, <[mkPosition x y := BACKGROUND_CELL]> g) g ys !! p
  = if decide (pos_x p = x ∧ pos_y p ∈ ys) then Some BACKGROUND_CELL
    else g !! p.
Proof.
  revert g. induction ys as [|y ys IH]; intros g; simpl.
  - rewrite decide_False; [done|]. intros [_ Hd]. by apply elem_of_nil in Hd.
  - rewrite IH. destruct (decide (p = mkPosition x y)) as [->|Hne]; simpl.
    + rewrite lookup_insert_eq. rewrite (decide_True _ _ (P:=_ ∧ y ∈ y :: ys)).
      * by destruct (decide _).
      * split; [done|]. by left.
    + rewrite lookup_insert_ne by done. apply decide_ext.
      rewrite elem_of_cons. destruct p as [px py]; simpl in *.
      split; [tauto|]. intros [-> [->|?]]; [done|tauto].
Qed.

Lemma init_column_lookup h (g : gmap Position Cell) x p :
  init_column h g x !! p
  = if decide (pos_x p = x ∧ 0 ≤ pos_y p < h) then Some BACKGROUND_CELL
    else g !! p.
Proof.
  unfold init_column. rewrite init_column_lookup_gen. apply decide_ext.
  rewrite elem_of_seqZ. lia.
Qed.

Lemma init_rows_lookup_gen (xs : list Z) h (g : gmap Position Cell) p :
  foldl (init_column h) g xs !! p
  = if decide (pos_x p ∈ xs ∧ 0 ≤ pos_y p < h) then Some BACKGROUND_CELL
    else g !! p.
Proof.
  revert g. induction xs as [|x xs IH]; intros g; cbn [foldl].
  - rewrite decide_False; [done|]. intros [Hd _]. by apply elem_of_nil in Hd.
  - rewrite IH, init_column_lookup.
    destruct (decide (pos_x p = x ∧ _)) as [H0|H0],
             (decide (pos_x p ∈ xs ∧ _)) as [H1|H1],
             (decide (pos_x p ∈ x :: xs ∧ _)) as [H2|H2];
      try done; rewrite elem_of_cons in H2; exfalso; tauto.
Qed.

Lemma init_grid_lookup W H p :
  init_grid W H !! p
  = if decide ((0 ≤ pos_x p < W) ∧ (0 ≤ pos_y p < H))
    then Some BACKGROUND_CELL else None.
Proof.
  unfold init_grid. rewrite init_rows_lookup_gen, lookup_empty.
  apply decide_ext. rewrite elem_of_seqZ. lia.
Qed.

Lemma World_init_wf W H : wf (World_init W H).
Proof.
  intros p. unfold in_bounds. simpl. rewrite init_grid_lookup.
  destruct (decide _) as [Hd|Hd]; split; intros Hp; try done.
Qed.

(** ** [stamp] *)

Lemma World_eq (w1 w2 : World) :
  grid w1 = grid w2 → width w1 = width w2 → height w1 = height w2 → w1 = w2.
Proof. destruct w1, w2; simpl; congruence. Qed.

Lemma stamp_one_width c w p : width (stamp_one c w p) = width w.
Proof. unfold stamp_one. by destruct (pos_is_free w p). Qed.

Lemma stamp_one_height c w p : height (stamp_one c w p) = height w.
Proof. unfold stamp_one. by destruct (pos_is_free w p). Qed.

Lemma stamp_one_lookup c w p q :
  grid (stamp_one c w p) !! q
  = if decide (q = p ∧ pos_is_free w p = true) then Some (mkCell c true)
    else grid w !! q.
Proof.
  unfold stamp_one. destruct (pos_is_free w p) eqn:Hfree; simpl.
  - destruct (decide (q = p)) as [->|Hne].
    + rewrite lookup_insert_eq. by rewrite decide_True.
    + rewrite lookup_insert_ne by done. rewrite decide_False; [done|tauto].
  - rewrite decide_False; [done|]. by intros [_ ?].
Qed.

Lemma stamp_width c ps w : width (stamp c ps w) = width w.
Proof.
  unfold stamp. revert w. induction ps as [|p ps IH]; intros w; simpl; [done|].
  by rewrite IH, stamp_one_width.
Qed.

Lemma stamp_height c ps w : height (stamp c ps w) = height w.
Proof.
  unfold stamp. revert w. induction ps as [|p ps IH]; intros w; simpl; [done|].
  by rewrite IH, stamp_one_height.
Qed.

Lemma stamp_one_free c w p q :
  pos_is_free (stamp_one c w p) q
  = if decide (q = p) then false else pos_is_free w q.
Proof.
  unfold pos_is_free at 1. rewrite stamp_one_lookup.
  destruct (decide (q = p)) as [->|Hne].
  - destruct (decide _) as [_|Hn]; [done|].
    fold (pos_is_free w p). destruct (pos_is_free w p); [|done].
    exfalso. by apply Hn.
  - rewrite decide_False by tauto. done.
Qed.

Lemma stamp_lookup c ps w q :
  grid (stamp c ps w) !! q
  = if decide (q ∈ ps ∧ pos_is_free w q = true) then Some (mkCell c true)
    else grid w !! q.
Proof.
  unfold stamp. revert w. induction ps as [|p ps IH]; intros w; cbn [foldl].
  - rewrite decide_False; [done|]. intros [Hq _]. by apply elem_of_nil in Hq.
  - rewrite IH.
    destruct (decide (q ∈ ps ∧ _)) as [[Hq Hf]|Hn1].
    + rewrite stamp_one_free in Hf.
      destruct (decide (q = p)) as [->|Hne]; [done|].
      rewrite decide_True; [done|]. split; [by right|done].
    + rewrite stamp_one_lookup.
      destruct (decide (q = p ∧ _)) as [[-> Hf]|Hn2].
      * rewrite decide_True; [done|]. split; [by left|done].
      * rewrite decide_False; [done|]. intros [Hq Hf].
        apply elem_of_cons in Hq as [->|Hq]; [tauto|].
        apply Hn1. split; [done|]. rewrite stamp_one_free.
        destruct (decide (q = p)) as [->|?]; [tauto|done].
Qed.

Lemma stamp_free_false c ps w q :
  q ∈ ps → pos_is_free (stamp c ps w) q = false.
Proof.
  intros Hq. unfold pos_is_free at 1. rewrite stamp_lookup.
  destruct (pos_is_free w q) eqn:Hfree.
  - by rewrite decide_True.
  - rewrite decide_False by (by intros [_ ?]). exact Hfree.
Qed.

Lemma stamp_wf c ps w : wf w → wf (stamp c ps w).
Proof.
  intros Hwf p. unfold in_bounds. rewrite stamp_width, stamp_height.
  rewrite <- (Hwf p), stamp_lookup.
  destruct (decide _) as [[_ Hfree]|_]; [|done].
  unfold pos_is_free in Hfree. destruct (grid w !! p); [|done].
  split; by eauto.
Qed.

Lemma stamp_stamp c c' ps w : stamp c' ps (stamp c ps w) = stamp c ps w.
Proof.
  apply World_eq; [|by rewrite !stamp_width|by rewrite !stamp_height].
  apply map_eq. intros q. rewrite (stamp_lookup c').
  destruct (decide _) as [[Hq Hfree]|_]; [|done].
  by rewrite stamp_free_false in Hfree.
Qed.

(** ** The row test *)

Lemma row_full_from_spec (g : gmap Position Cell) y xs :
  (∀ x, x ∈ xs → is_Some (g !! mkPosition x y)) →
  ∃ b, row_full_from g y xs = Ok b
       ∧ (b = true ↔ ∀ x, x ∈ xs → solid_at g (mkPosition x y)).
Proof.
  induction xs as [|x xs IH]; intros Hdom; simpl.
  - exists true. split; [done|]. split; [|done]. intros _ x Hx.
    by apply elem_of_nil in Hx.
  - destruct (Hdom x) as [c Hc]; [by left|]. rewrite Hc.
    destruct (solid c) eqn:Hs.
    + destruct IH as (b & Hb & Hiff).
      { intros x' Hx'. apply Hdom. by right. }
      exists b. split; [done|]. rewrite Hiff. split.
      * intros Hall x' [->|Hx']%elem_of_cons; [by exists c|by apply Hall].
      * intros Hall x' Hx'. apply Hall. by right.
    + exists false. split; [done|]. split; [done|]. intros Hall.
      destruct (Hall x) as (c' & Hc' & Hs'); [by left|]. congruence.
Qed.

(** ** The collapse, cell by cell *)

Lemma shift_row_spec ty xs (g : gmap Position Cell) :
  (ty ≠ 0 → ∀ x, x ∈ xs → is_Some (g !! mkPosition x (ty - 1))) →
  ∃ g', shift_row ty xs g = Ok g'
        ∧ ∀ q, g' !! q = if decide (pos_y q = ty ∧ pos_x q ∈ xs)
                         then shifted g (pos_x q) ty else g !! q.
Proof.
  revert g. induction xs as [|x xs IH]; intros g Hdom; simpl.
  - exists g. split; [done|]. intros q. rewrite decide_False; [done|].
    intros [_ Hq]. by apply elem_of_nil in Hq.
  - assert (∃ c, shift_cell ty g x = Ok (<[mkPosition x ty := c]> g)
                 ∧ shifted g x ty = Some c) as (c & -> & Hc).
    { unfold shift_cell, shifted. destruct (decide (ty = 0)) as [->|Hne].
      - by eexists.
      - destruct (Hdom Hne x) as [c Hc]; [by left|]. rewrite Hc. by eexists. }
    simpl. destruct (IH (<[mkPosition x ty := c]> g)) as (g' & -> & Hg').
    { intros Hne x' Hx'. rewrite lookup_insert_ne by (intros [= ]; lia).
      apply Hdom; [done|by right]. }
    exists g'. split; [done|]. intros q. rewrite Hg'.
    assert (∀ x', shifted (<[mkPosition x ty := c]> g) x' ty = shifted g x' ty)
      as Hsh.
    { intros x'. unfold shifted. destruct (decide (ty = 0)); [done|].
      apply lookup_insert_ne. intros [= ]; lia. }
    rewrite Hsh.
    destruct (decide (pos_y q = ty ∧ pos_x q ∈ xs)) as [[Hy Hx]|Hn].
    + rewrite decide_True; [done|]. split; [done|by right].
    + destruct (decide (q = mkPosition x ty)) as [->|Hq].
      * rewrite lookup_insert_eq. simpl.
        rewrite decide_True; [done|]. split; [done|by left].
      * rewrite lookup_insert_ne by done. rewrite decide_False; [done|].
        intros [Hy [Hx|Hx]%elem_of_cons]; [|tauto].
        apply Hq. destruct q; simpl in *; congruence.
Qed.

Lemma range_down_neg y : y < 0 → range_down y = [].
Proof. intros. unfold range_down. by rewrite seqZ_nil by lia. Qed.

Lemma range_down_nonneg y : 0 ≤ y → range_down y = y :: range_down (y - 1).
Proof.
  intros. unfold range_down.
  replace (y + 1) with (Z.of_nat (S (Z.to_nat y))) by lia.
  rewrite seqZ_S, reverse_snoc. f_equal; [lia|]. f_equal. f_equal. lia.
Qed.

Lemma shift_rows_spec (n : nat) xs (g : gmap Position Cell) :
  let y := Z.of_nat n - 1 in
  (∀ x t, x ∈ xs → 0 ≤ t < y → is_Some (g !! mkPosition x t)) →
  ∃ g', shift_rows (range_down y) xs g = Ok g'
        ∧ ∀ q, g' !! q = if decide ((0 ≤ pos_y q ≤ y) ∧ pos_x q ∈ xs)
                         then shifted g (pos_x q) (pos_y q) else g !! q.
Proof.
  revert g. induction n as [|n IH]; intros g y Hdom; subst y.
  - rewrite range_down_neg by lia. exists g. split; [done|]. intros q.
    rewrite decide_False; [done|]. lia.
  - replace (Z.of_nat (S n) - 1) with (Z.of_nat n) in * by lia.
    rewrite range_down_nonneg by lia. cbn [shift_rows].
    destruct (shift_row_spec (Z.of_nat n) xs g) as (g1 & -> & Hg1).
    { intros Hne x Hx. apply Hdom; [done|lia]. }
    cbn [res_bind].
    destruct (IH g1) as (g' & -> & Hg').
    { intros x t Hx Ht. rewrite Hg1. rewrite decide_False by (simpl; lia).
      apply Hdom; [done|lia]. }
    exists g'. split; [done|]. intros q. rewrite Hg'.
    destruct (decide ((0 ≤ pos_y q ≤ Z.of_nat n - 1) ∧ pos_x q ∈ xs))
      as [[Hy Hx]|Hn].
    + rewrite decide_True by (split; [lia|done]).
      unfold shifted. destruct (decide (pos_y q = 0)); [done|].
      rewrite Hg1. rewrite decide_False by (simpl; lia). done.
    + rewrite Hg1.
      destruct (decide (pos_y q = Z.of_nat n ∧ pos_x q ∈ xs)) as [[Hy Hx]|Hn'].
      * rewrite decide_True by (split; [lia|done]). by rewrite Hy.
      * rewrite decide_False; [done|]. intros [Hy Hx].
        destruct (decide (pos_y q = Z.of_nat n)); [tauto|]. apply Hn.
        split; [lia|done].
Qed.

(** ** The row test and the collapse on a well-formed world *)

Lemma wf_lookup w x y :
  wf w → 0 ≤ x < width w → 0 ≤ y < height w →
  is_Some (grid w !! mkPosition x y).
Proof. intros Hwf Hx Hy. apply Hwf. by split. Qed.

Lemma row_full_spec w y :
  wf w → 0 ≤ y < height w →
  ∃ b, row_full w y = Ok b
       ∧ (b = true ↔
          ∀ x, 0 ≤ x < width w → solid_at (grid w) (mkPosition x y)).
Proof.
  intros Hwf Hy. unfold row_full.
  destruct (row_full_from_spec (grid w) y (seqZ 0 (width w))) as (b & Hb & Hiff).
  { intros x Hx%elem_of_seqZ. apply wf_lookup; [done|lia|done]. }
  exists b. split; [done|]. rewrite Hiff.
  split; intros Hall x Hx; apply Hall.
  - apply elem_of_seqZ. lia.
  - apply elem_of_seqZ in Hx. lia.
Qed.

Lemma row_of_full w y :
  wf w → 0 ≤ y < height w →
  full_row (row_of w y)
  ↔ ∀ x, 0 ≤ x < width w → solid_at (grid w) (mkPosition x y).
Proof.
  intros Hwf Hy. unfold full_row, row_of. rewrite Forall_fmap, Forall_seqZ.
  split; intros Hall x Hx.
  - destruct (wf_lookup w x y) as [c Hc]; [done..|].
    exists c. split; [done|]. specialize (Hall x). simpl in Hall.
    rewrite (lookup_total_correct _ _ _ Hc) in Hall. apply Hall. lia.
  - simpl. destruct (Hall x) as (c & Hc & Hs); [lia|].
    by rewrite (lookup_total_correct _ _ _ Hc).
Qed.

Lemma row_full_row_of w y :
  wf w → 0 ≤ y < height w →
  row_full w y = Ok (bool_decide (full_row (row_of w y))).
Proof.
  intros Hwf Hy. destruct (row_full_spec w y) as (b & -> & Hiff); [done..|].
  f_equal. rewrite <- row_of_full in Hiff by done.
  destruct b.
  - symmetry. apply bool_decide_eq_true. by apply Hiff.
  - symmetry. apply bool_decide_eq_false. intros Hf. by apply Hiff in Hf.
Qed.

Lemma collapse_spec w y :
  wf w → 0 ≤ y < height w →
  ∃ w', collapse w y = Ok w'
        ∧ width w' = width w ∧ height w' = height w
        ∧ ∀ q, grid w' !! q
               = if decide ((0 ≤ pos_y q ≤ y) ∧ (0 ≤ pos_x q < width w))
                 then shifted (grid w) (pos_x q) (pos_y q)
                 else grid w !! q.
Proof.
  intros Hwf Hy. unfold collapse.
  destruct (shift_rows_spec (Z.to_nat (y + 1)) (seqZ 0 (width w)) (grid w))
    as (g' & Hg' & Hlook).
  { intros x t Hx%elem_of_seqZ Ht. apply wf_lookup; [done|lia|lia]. }
  replace (Z.of_nat (Z.to_nat (y + 1)) - 1) with y in * by lia.
  rewrite Hg'. simpl. eexists. split; [done|]. split; [done|]. split; [done|].
  intros q. simpl. rewrite Hlook. apply decide_ext. rewrite elem_of_seqZ. lia.
Qed.

Lemma collapse_wf w y w' :
  wf w → 0 ≤ y < height w → collapse w y = Ok w' → wf w'.
Proof.
  intros Hwf Hy Hc.
  destruct (collapse_spec w y) as (w2 & Hc2 & Hw & Hh & Hlook); [done..|].
  rewrite Hc in Hc2. injection Hc2 as <-.
  intros q. unfold in_bounds. rewrite Hw, Hh, Hlook.
  destruct (decide _) as [[Hqy Hqx]|Hn]; [|apply Hwf].
  unfold shifted. destruct (decide (pos_y q = 0)) as [Hq0|Hq0].
  - split; [intros _; split; lia|by eauto].
  - split; [intros _; split; lia|]. intros _. apply wf_lookup; [done|lia|lia].
Qed.

(** The rows of the collapsed world. *)
Lemma collapse_row_of w y w' t :
  wf w → 0 ≤ y < height w → collapse w y = Ok w' →
  row_of w' t = if decide (t = 0) then bg_row w
                else if decide (0 < t ≤ y) then row_of w (t - 1)
                     else row_of w t.
Proof.
  intros Hwf Hy Hc.
  destruct (collapse_spec w y) as (w2 & Hc2 & Hw & Hh & Hlook); [done..|].
  rewrite Hc in Hc2. injection Hc2 as <-.
  unfold row_of, bg_row. rewrite Hw.
  destruct (decide (t = 0)) as [->|Ht0].
  - rewrite <- (length_seqZ 0 (width w)). apply const_fmap.
    intros i x Hx%lookup_seqZ. rewrite lookup_total_alt, Hlook. simpl.
    rewrite decide_True by lia. done.
  - destruct (decide (0 < t ≤ y)) as [Hty|Hty];
      apply list_fmap_ext; intros i x Hx%lookup_seqZ;
      rewrite !lookup_total_alt, Hlook; simpl.
    + rewrite decide_True by lia. unfold shifted. by rewrite decide_False.
    + rewrite decide_False by lia. done.
Qed.

(** ** The grid as a list of rows *)

Lemma rows_range_app w a n1 n2 :
  0 ≤ n1 → 0 ≤ n2 →
  rows_range w a (n1 + n2) = rows_range w a n1 ++ rows_range w (a + n1) n2.
Proof. intros. unfold rows_range. by rewrite seqZ_app, fmap_app. Qed.

Lemma rows_range_cons w a n :
  0 < n → rows_range w a n = row_of w a :: rows_range w (a + 1) (n - 1).
Proof. intros. unfold rows_range. by rewrite seqZ_cons. Qed.

Lemma rows_range_nil w a n : n ≤ 0 → rows_range w a n = [].
Proof. intros. unfold rows_range. by rewrite seqZ_nil. Qed.

Lemma rows_range_snoc w a n :
  0 ≤ n → rows_range w a (n + 1) = rows_range w a n ++ [row_of w (a + n)].
Proof.
  intros. rewrite rows_range_app by lia. f_equal.
Qed.

Lemma rows_split w y :
  0 ≤ y < height w →
  rows w = rows_range w 0 y
           ++ row_of w y :: rows_range w (y + 1) (height w - (y + 1)).
Proof.
  intros Hy. unfold rows.
  replace (height w) with (y + (height w - y)) at 1 by lia.
  rewrite rows_range_app by lia. f_equal.
  rewrite rows_range_cons by lia. simpl. do 2 f_equal. lia.
Qed.

Lemma length_row_of w y : length (row_of w y) = Z.to_nat (width w).
Proof. unfold row_of. by rewrite length_fmap, length_seqZ. Qed.

Lemma bg_row_not_full w : 0 < width w → ¬ full_row (bg_row w).
Proof.
  intros Hw Hf. unfold full_row, bg_row in Hf.
  destruct (Z.to_nat (width w)) as [|n] eqn:Hn; [lia|].
  simpl in Hf. by apply Forall_cons_1 in Hf as [? _].
Qed.

Lemma filter_solid_bg_row w :
  filter (λ c, solid c = true) (bg_row w) = [].
Proof.
  unfold bg_row. induction (Z.to_nat (width w)) as [|n IH]; [done|].
  simpl. by rewrite filter_cons_False.
Qed.

Lemma filter_solid_full r :
  full_row r → filter (λ c, solid c = true) r = r.
Proof.
  unfold full_row. induction 1 as [|c r Hc Hr IH]; [done|].
  by rewrite filter_cons_True, IH.
Qed.

Lemma solid_in_app R1 R2 : solid_in (R1 ++ R2) = (solid_in R1 + solid_in R2)%nat.
Proof. unfold solid_in. by rewrite concat_app, filter_app, length_app. Qed.

Lemma solid_in_cons r R :
  solid_in (r :: R)
  = (length (filter (λ c, solid c = true) r) + solid_in R)%nat.
Proof. unfold solid_in. by rewrite concat_cons, filter_app, length_app. Qed.

(** The rows of the collapsed world, in two blocks. *)
Lemma collapse_rows_above w y w' :
  wf w → 0 ≤ y < height w → collapse w y = Ok w' →
  rows_range w' 0 (y + 1) = bg_row w :: rows_range w 0 y.
Proof.
  intros Hwf Hy Hc. rewrite rows_range_cons by lia.
  rewrite (collapse_row_of w y w' 0) by done. rewrite decide_True by done.
  f_equal. replace (y + 1 - 1) with y by lia. unfold rows_range.
  replace (seqZ (0 + 1) y) with (Z.add 1 <$> seqZ 0 y)
    by (by rewrite fmap_add_seqZ).
  rewrite <- list_fmap_compose.
  apply list_fmap_ext. intros i t [-> Ht]%lookup_seqZ. simpl.
  rewrite (collapse_row_of w y w') by done.
  rewrite decide_False by lia. rewrite decide_True by lia. f_equal. lia.
Qed.

Lemma collapse_rows_below w y w' n :
  wf w → 0 ≤ y < height w → collapse w y = Ok w' →
  rows_range w' (y + 1) n = rows_range w (y + 1) n.
Proof.
  intros Hwf Hy Hc. unfold rows_range.
  apply list_fmap_ext. intros i t [-> Ht]%lookup_seqZ.
  rewrite (collapse_row_of w y w') by done.
  rewrite decide_False by lia. by rewrite decide_False by lia.
Qed.

Lemma collapse_dims w y w' :
  wf w → 0 ≤ y < height w → collapse w y = Ok w' →
  width w' = width w ∧ height w' = height w.
Proof.
  intros Hwf Hy Hc.
  destruct (collapse_spec w y) as (w2 & Hc2 & Hw & Hh & _); [done..|].
  rewrite Hc in Hc2. by injection Hc2 as <-.
Qed.

Lemma collapse_rows w y w' :
  wf w → 0 ≤ y < height w → collapse w y = Ok w' →
  rows w' = bg_row w :: rows_range w 0 y
            ++ rows_range w (y + 1) (height w - (y + 1)).
Proof.
  intros Hwf Hy Hc. destruct (collapse_dims w y w') as [Hw Hh]; [done..|].
  unfold rows. rewrite Hh.
  replace (height w) with ((y + 1) + (height w - (y + 1))) at 1 by lia.
  rewrite rows_range_app by lia.
  rewrite (collapse_rows_above w y) by done.
  by rewrite Z.add_0_l, (collapse_rows_below w y) by done.
Qed.

(** A collapse removes exactly the [width] solid cells of the full row. *)
Lemma collapse_solid_in w y w' :
  wf w → 0 ≤ y < height w → full_row (row_of w y) →
  collapse w y = Ok w' →
  (solid_in (rows w') + Z.to_nat (width w))%nat = solid_in (rows w).
Proof.
  intros Hwf Hy Hfull Hc.
  rewrite (collapse_rows w y w'), (rows_split w y) by done.
  rewrite solid_in_cons, !solid_in_app, solid_in_cons.
  rewrite filter_solid_bg_row, filter_solid_full, length_row_of by done.
  simpl. lia.
Qed.

(** ** The scanning loop *)

Lemma clean_loop_unfold fuel w y c :
  clean_loop (S fuel) w y c
  = if decide (0 ≤ y) then
      let* full := row_full w y in
      if full : bool then
        let* w' := collapse w y in clean_loop fuel w' y (c + 1)
      else clean_loop fuel w (y - 1) c
    else Ok (w, c).
Proof. done. Qed.

Lemma nfull_snoc R r :
  nfull (R ++ [r]) = (nfull R + if decide (full_row r) then 1 else 0)%nat.
Proof.
  unfold nfull. rewrite filter_app, length_app. f_equal.
  destruct (decide (full_row r)).
  - by rewrite filter_cons_True.
  - by rewrite filter_cons_False.
Qed.

Lemma clean_loop_spec fuel : ∀ w y c,
  wf w → 0 < width w → -1 ≤ y < height w →
  (Z.to_nat (y + 1) + solid_in (rows w) < fuel)%nat →
  ∃ w', clean_loop fuel w y c
        = Ok (w', c + Z.of_nat (nfull (rows_range w 0 (y + 1))))
        ∧ wf w' ∧ width w' = width w ∧ height w' = height w
        ∧ rows w'
          = replicate (nfull (rows_range w 0 (y + 1))) (bg_row w)
            ++ filter (λ r, ¬ full_row r) (rows_range w 0 (y + 1))
            ++ rows_range w (y + 1) (height w - (y + 1)).
Proof.
  induction fuel as [|fuel IH]; intros w y c Hwf Hw Hy Hfuel; [lia|].
  rewrite clean_loop_unfold. destruct (decide (0 ≤ y)) as [Hy0|Hy0].
  - rewrite row_full_row_of by (done || lia). cbn [res_bind].
    replace (y + 1) with ((y - 1 + 1) + 1) by lia.
    rewrite (rows_range_snoc w 0 (y - 1 + 1)) by lia.
    replace (0 + (y - 1 + 1)) with y by lia.
    rewrite nfull_snoc, filter_app.
    destruct (bool_decide (full_row (row_of w y))) eqn:Hfull.
    + apply bool_decide_eq_true in Hfull.
      rewrite (decide_True _ _ Hfull).
      destruct (collapse_spec w y) as (w1 & Hc & _); [done|lia|].
      rewrite Hc. cbn [res_bind].
      destruct (collapse_dims w y w1) as [Hw1 Hh1]; [done|lia|done|].
      pose proof (collapse_solid_in w y w1 Hwf ltac:(lia) Hfull Hc) as Hsol.
      destruct (IH w1 y (c + 1)) as (w' & -> & Hwf' & Hw' & Hh' & Hrows).
      { by eapply collapse_wf; [done| |done]; lia. }
      { lia. } { lia. } { lia. }
      exists w'.
      rewrite (collapse_rows_above w y w1) by (done || lia).
      rewrite (collapse_rows_below w y w1) in Hrows by (done || lia).
      rewrite (collapse_rows_above w y w1) in Hrows by (done || lia).
      replace (y - 1 + 1) with y by lia.
      assert (nfull (bg_row w :: rows_range w 0 y) = nfull (rows_range w 0 y))
        as Hn.
      { unfold nfull. rewrite filter_cons_False; [done|].
        by apply bg_row_not_full. }
      rewrite Hn in *. split_and!; [f_equal; f_equal; lia|done|lia|lia|].
      rewrite Hrows, Hh1.
      assert (bg_row w1 = bg_row w) as -> by (unfold bg_row; by rewrite Hw1).
      rewrite filter_cons_True by (by apply bg_row_not_full).
      rewrite (filter_cons_False _ (row_of w y)) by tauto.
      rewrite Nat.add_1_r, replicate_S_end, app_nil_r.
      by rewrite <- !app_assoc.
    + apply bool_decide_eq_false in Hfull.
      rewrite (decide_False _ _ Hfull).
      destruct (IH w (y - 1) c) as (w' & -> & Hwf' & Hw' & Hh' & Hrows);
        [done|done|lia|lia|].
      exists w'. replace (y - 1 + 1) with y in * by lia.
      split_and!; [f_equal; f_equal; lia|done..|].
      rewrite Hrows, Nat.add_0_r, filter_cons_True by done.
      rewrite <- !app_assoc. do 2 f_equal.
      rewrite (rows_range_cons w y) by lia. rewrite filter_nil. simpl.
      do 2 f_equal. lia.
  - assert (y = -1) as -> by lia. exists w. simpl.
    rewrite rows_range_nil by lia. simpl. unfold nfull. simpl.
    split_and!; [f_equal; f_equal; lia|done..|].
    unfold rows. f_equal. lia.
Qed.

(** ** [clean_full_lines] as a whole *)

Lemma rows_nil w : height w ≤ 0 → rows w = [].
Proof. intros. unfold rows. by apply rows_range_nil. Qed.

Lemma clean_full_lines_spec fuel w :
  wf w → 0 < width w →
  (Z.to_nat (height w) + solid_in (rows w) < fuel)%nat →
  ∃ w', clean_full_lines fuel w = Ok (w', Z.of_nat (nfull (rows w)))
        ∧ wf w' ∧ width w' = width w ∧ height w' = height w
        ∧ rows w' = replicate (nfull (rows w)) (bg_row w)
                    ++ filter (λ r, ¬ full_row r) (rows w).
Proof.
  intros Hwf Hw Hfuel. unfold clean_full_lines.
  destruct (decide (0 < height w)) as [Hh|Hh].
  - destruct (clean_loop_spec fuel w (height w - 1) 0)
      as (w' & Hrun & Hwf' & Hw' & Hh' & Hrows); [done|done|lia|lia|].
    replace (height w - 1 + 1) with (height w) in * by lia.
    exists w'. rewrite Hrun. split_and!; try done.
    rewrite Hrows, (rows_range_nil w (height w)) by lia.
    by rewrite app_nil_r.
  - destruct fuel as [|fuel]; [lia|]. rewrite clean_loop_unfold.
    rewrite decide_False by lia. exists w. rewrite rows_nil by lia.
    done.
Qed.

(** A returning call keeps the invariant, whatever the fuel. *)
Lemma clean_loop_wf fuel : ∀ w y c w' n,
  wf w → y < height w → clean_loop fuel w y c = Ok (w', n) →
  wf w' ∧ width w' = width w ∧ height w' = height w.
Proof.
  induction fuel as [|fuel IH]; intros w y c w' n Hwf Hy Hrun; [done|].
  rewrite clean_loop_unfold in Hrun.
  destruct (decide (0 ≤ y)) as [Hy0|Hy0]; [|by injection Hrun as <- <-].
  rewrite row_full_row_of in Hrun by (done || lia). cbn [res_bind] in Hrun.
  destruct (bool_decide (full_row (row_of w y))).
  - destruct (collapse_spec w y) as (w1 & Hc & Hw1 & Hh1 & _); [done|lia|].
    rewrite Hc in Hrun. cbn [res_bind] in Hrun.
    apply IH in Hrun as (? & ? & ?).
    + split_and!; [done|congruence..].
    + eapply collapse_wf; [done| |done]. lia.
    + lia.
  - apply IH in Hrun; [done..|lia].
Qed.

Lemma clean_full_lines_wf fuel w w' n :
  wf w → clean_full_lines fuel w = Ok (w', n) →
  wf w' ∧ width w' = width w ∧ height w' = height w.
Proof. intros Hwf Hrun. eapply clean_loop_wf; [done| |done]. lia. Qed.

Lemma reachable_wf w : reachable w → wf w.
Proof.
  induction 1 as [W H|c ps w _ IH|fuel w w' n _ IH Hrun].
  - apply World_init_wf.
  - by apply stamp_wf.
  - by apply clean_full_lines_wf in Hrun as [? _].
Qed.

(** With no column every row counts as full and nothing is removed: the
    loop never leaves its first row. *)
Lemma clean_loop_no_column fuel : ∀ w y c,
  width w ≤ 0 → 0 ≤ y → clean_loop fuel w y c = OutOfFuel.
Proof.
  induction fuel as [|fuel IH]; intros w y c Hw Hy; [done|].
  rewrite clean_loop_unfold, decide_True by done.
  unfold row_full, collapse. rewrite seqZ_nil by done. simpl.
  assert (∀ tys (g : gmap Position Cell), shift_rows tys [] g = Ok g) as ->.
  { induction tys as [|t tys IHt]; intros g; [done|]. simpl. apply IHt. }
  simpl. by apply IH.
Qed.

(** ** A well-formed world is determined by its rows *)

Lemma rows_lookup w t :
  0 ≤ t < height w → rows w !! Z.to_nat t = Some (row_of w t).
Proof.
  intros Ht. unfold rows, rows_range. rewrite list_lookup_fmap.
  rewrite lookup_seqZ_lt by lia. simpl. f_equal. f_equal. lia.
Qed.

Lemma row_of_lookup w x t :
  0 ≤ x < width w →
  row_of w t !! Z.to_nat x = Some (grid w !!! mkPosition x t).
Proof.
  intros Hx. unfold row_of. rewrite list_lookup_fmap.
  rewrite lookup_seqZ_lt by lia. simpl. do 3 f_equal. lia.
Qed.

Lemma rows_inj w1 w2 :
  wf w1 → wf w2 → width w1 = width w2 → height w1 = height w2 →
  rows w1 = rows w2 → w1 = w2.
Proof.
  intros Hwf1 Hwf2 Hw Hh Hrows. apply World_eq; [|done..].
  apply map_eq. intros [x t].
  destruct (decide (in_bounds w1 (mkPosition x t))) as [Hin|Hout].
  - assert (in_bounds w2 (mkPosition x t)) as Hin2.
    { unfold in_bounds in *. by rewrite <- Hw, <- Hh. }
    destruct Hin as [Hx Ht]. simpl in *.
    pose proof (rows_lookup w1 t Ht) as H1.
    pose proof (rows_lookup w2 t ltac:(lia)) as H2.
    rewrite Hrows, H2 in H1. injection H1 as Hrow.
    pose proof (row_of_lookup w1 x t Hx) as H3.
    pose proof (row_of_lookup w2 x t ltac:(lia)) as H4.
    rewrite <- Hrow, H4 in H3. injection H3 as Hcell.
    destruct (proj2 (Hwf1 (mkPosition x t))) as [c1 Hc1]; [by split|].
    destruct (proj2 (Hwf2 (mkPosition x t))) as [c2 Hc2]; [done|].
    rewrite (lookup_total_correct _ _ _ Hc1) in Hcell.
    rewrite (lookup_total_correct _ _ _ Hc2) in Hcell. congruence.
  - assert (¬ in_bounds w2 (mkPosition x t)) as Hout2.
    { unfold in_bounds in *. by rewrite <- Hw, <- Hh. }
    assert (grid w1 !! mkPosition x t = None) as ->.
    { apply eq_None_not_Some. by rewrite (Hwf1 (mkPosition x t)). }
    symmetry. apply eq_None_not_Some. by rewrite (Hwf2 (mkPosition x t)).
Qed.

(** ** Exactly one full row *)

Lemma rows_range_no_full w a n :
  (∀ t, a ≤ t < a + n → ¬ full_row (row_of w t)) →
  filter (λ r, ¬ full_row r) (rows_range w a n) = rows_range w a n
  ∧ nfull (rows_range w a n) = 0%nat.
Proof.
  intros Hnone. unfold nfull, rows_range.
  assert (Forall (λ t, ¬ full_row (row_of w t)) (seqZ a n)) as Hall.
  { by apply Forall_seqZ. }
  induction Hall as [|t ts Ht _ [IH1 IH2]]; [done|].
  rewrite !fmap_cons. rewrite filter_cons_True, filter_cons_False by tauto.
  by rewrite IH1, IH2.
Qed.

Lemma clean_single_row fuel w r :
  wf w → 0 < width w → 0 ≤ r < height w →
  (∀ t, 0 ≤ t < height w → full_row (row_of w t) ↔ t = r) →
  (Z.to_nat (height w) + solid_in (rows w) < fuel)%nat →
  ∃ w', collapse w r = Ok w' ∧ clean_full_lines fuel w = Ok (w', 1).
Proof.
  intros Hwf Hw Hr Hone Hfuel.
  destruct (collapse_spec w r) as (w1 & Hc & Hw1 & Hh1 & _); [done..|].
  exists w1. split; [done|].
  destruct (clean_full_lines_spec fuel w)
    as (w2 & Hrun & Hwf2 & Hw2 & Hh2 & Hrows); [done..|].
  destruct (rows_range_no_full w 0 r) as [Hf1 Hn1].
  { intros t Ht. rewrite Hone by lia. lia. }
  destruct (rows_range_no_full w (r + 1) (height w - (r + 1))) as [Hf2 Hn2].
  { intros t Ht. rewrite Hone by lia. lia. }
  assert (full_row (row_of w r)) as Hfull by (by apply Hone).
  assert (nfull (rows w) = 1%nat) as Hn.
  { rewrite (rows_split w r) by done. unfold nfull in *.
    rewrite filter_app, filter_cons_True, length_app by done.
    cbn [length]. by rewrite Hn1, Hn2. }
  assert (filter (λ r, ¬ full_row r) (rows w)
          = rows_range w 0 r ++ rows_range w (r + 1) (height w - (r + 1)))
    as Hf.
  { rewrite (rows_split w r) by done.
    rewrite filter_app, filter_cons_False by tauto. by rewrite Hf1, Hf2. }
  rewrite Hn, Hf in *. rewrite Hrun. do 2 f_equal.
  apply rows_inj; [done|exact (collapse_wf w r w1 Hwf Hr Hc)|congruence..|].
  by rewrite Hrows, (collapse_rows w r w1).
Qed.

(** ** Domain and size of the mapping *)

Lemma NoDup_positions W H : NoDup (positions W H).
Proof.
  unfold positions. apply NoDup_bind.
  - intros x1 x2 p _ _ (y1 & -> & _)%list_elem_of_fmap
                      (y2 & [= ] & _)%list_elem_of_fmap. done.
  - intros x _. apply NoDup_fmap_2; [|apply NoDup_seqZ].
    by intros y1 y2 [= ].
  - apply NoDup_seqZ.
Qed.

Lemma length_positions W H :
  length (positions W H) = (Z.to_nat W * Z.to_nat H)%nat.
Proof.
  unfold positions. rewrite <- (length_seqZ 0 W).
  induction (seqZ 0 W) as [|x xs IH]; [done|].
  cbn [mbind list_bind]. rewrite length_app, IH, length_fmap, length_seqZ.
  simpl. lia.
Qed.

Lemma wf_dom w :
  wf w ↔ dom (grid w) = list_to_set (positions (width w) (height w)).
Proof.
  split.
  - intros Hwf. apply set_eq. intros p.
    rewrite elem_of_dom, elem_of_list_to_set, elem_of_positions. apply Hwf.
  - intros Hdom p.
    rewrite <- elem_of_dom, Hdom, elem_of_list_to_set, elem_of_positions.
    done.
Qed.

Lemma wf_size w :
  wf w → size (grid w) = (Z.to_nat (width w) * Z.to_nat (height w))%nat.
Proof.
  intros Hwf%wf_dom. rewrite <- size_dom, Hwf.
  rewrite size_list_to_set by apply NoDup_positions.
  apply length_positions.
Qed.

(** ** Counting solid cells: the mapping against its rows *)

Lemma elem_of_row_major W H p :
  p ∈ row_major W H ↔ (0 ≤ pos_x p < W) ∧ (0 ≤ pos_y p < H).
Proof.
  unfold row_major. rewrite list_elem_of_bind. split.
  - intros (y & Hp & Hy). apply list_elem_of_fmap in Hp as (x & -> & Hx).
    apply elem_of_seqZ in Hx, Hy. simpl. lia.
  - intros [Hx Hy]. exists (pos_y p). split.
    + apply list_elem_of_fmap. exists (pos_x p). split; [by destruct p|].
      apply elem_of_seqZ. lia.
    + apply elem_of_seqZ. lia.
Qed.

Lemma NoDup_row_major W H : NoDup (row_major W H).
Proof.
  unfold row_major. apply NoDup_bind.
  - intros y1 y2 p _ _ (x1 & -> & _)%list_elem_of_fmap
                      (x2 & [= ] & _)%list_elem_of_fmap. done.
  - intros y _. apply NoDup_fmap_2; [|apply NoDup_seqZ].
    by intros x1 x2 [= ].
  - apply NoDup_seqZ.
Qed.

Lemma concat_rows w :
  concat (rows w)
  = (λ p, grid w !!! p) <$> row_major (width w) (height w).
Proof.
  unfold rows, rows_range, row_major.
  induction (seqZ 0 (height w)) as [|y ys IH]; [done|].
  cbn [mbind list_bind]. rewrite fmap_cons, concat_cons, fmap_app, IH.
  f_equal. unfold row_of. by rewrite <- list_fmap_compose.
Qed.

Lemma map_to_list_wf w :
  wf w →
  map_to_list (grid w)
  ≡ₚ (λ p, (p, grid w !!! p)) <$> row_major (width w) (height w).
Proof.
  intros Hwf. apply NoDup_Permutation.
  - apply NoDup_map_to_list.
  - apply NoDup_fmap_2; [|apply NoDup_row_major]. by intros p1 p2 [= ].
  - intros [p c]. rewrite elem_of_map_to_list, list_elem_of_fmap. split.
    + intros Hc. exists p. split.
      * by rewrite (lookup_total_correct _ _ _ Hc).
      * apply elem_of_row_major. apply Hwf. by eexists.
    + intros (p' & [= <- ->] & Hp). apply lookup_lookup_total.
      apply Hwf. by apply elem_of_row_major in Hp.
Qed.

Lemma solid_count_rows w : wf w → solid_count (grid w) = solid_in (rows w).
Proof.
  intros Hwf. unfold solid_count, solid_in.
  rewrite concat_rows, (map_to_list_wf w Hwf), <- list_fmap_compose. done.
Qed.

(** * The claims *)

(** What a collapse at row [y] leaves in the columns of the grid: the
    background cell in row 0, in row [ty] of [1..y] the former row [ty-1],
    and the rows below [y] as they were. *)
Lemma collapse_cells w y w' :
  wf w → 0 ≤ y < height w → collapse w y = Ok w' →
  ∀ x, 0 ≤ x < width w →
    grid w' !! mkPosition x 0 = Some BACKGROUND_CELL
    ∧ (∀ ty, 0 < ty ≤ y →
         grid w' !! mkPosition x ty = grid w !! mkPosition x (ty - 1))
    ∧ (∀ ty, y < ty →
         grid w' !! mkPosition x ty = grid w !! mkPosition x ty).
Proof.
  intros Hwf Hy Hc x Hx.
  destruct (collapse_spec w y) as (w2 & Hc2 & _ & _ & Hlook); [done..|].
  rewrite Hc in Hc2. injection Hc2 as <-. split_and!.
  - rewrite Hlook. simpl. by rewrite decide_True by lia.
  - intros ty Hty. rewrite Hlook. simpl. rewrite decide_True by lia.
    unfold shifted. by rewrite decide_False by lia.
  - intros ty Hty. rewrite Hlook. simpl. by rewrite decide_False by lia.
Qed.

(** C1. On a grid whose mapping is total and that has at least one column,
    [clean_full_lines] starts its scan at row [height-1] and stops below row
    0; a row tests full iff all its cells are solid; at a full row the count
    goes up by one, every row above moves down by one (row 0 becomes
    background) and the same [y] is examined again; at any other row [y]
    goes down by one; the call returns the number of full rows, leaving the
    other rows in order under that many background rows.  With exactly one
    full row [r] it returns 1, row [ty] of [1..r] holds the former row
    [ty-1], and row 0 is background. *)
Theorem C1_clean_full_lines (w : World) :
  wf w → 0 < width w →
  (∀ fuel, clean_full_lines fuel w = clean_loop fuel w (height w - 1) 0)
  ∧ (∀ fuel y c, y < 0 → clean_loop (S fuel) w y c = Ok (w, c))
  ∧ (∀ y, 0 ≤ y < height w →
       ∃ b, row_full w y = Ok b
            ∧ (b = true ↔
               ∀ x, 0 ≤ x < width w → solid_at (grid w) (mkPosition x y)))
  ∧ (∀ fuel y c, 0 ≤ y < height w → row_full w y = Ok true →
       ∃ w', collapse w y = Ok w'
             ∧ clean_loop (S fuel) w y c = clean_loop fuel w' y (c + 1)
             ∧ wf w' ∧ width w' = width w ∧ height w' = height w
             ∧ ∀ x, 0 ≤ x < width w →
                 grid w' !! mkPosition x 0 = Some BACKGROUND_CELL
                 ∧ (∀ ty, 0 < ty ≤ y →
                      grid w' !! mkPosition x ty
                      = grid w !! mkPosition x (ty - 1))
                 ∧ (∀ ty, y < ty →
                      grid w' !! mkPosition x ty = grid w !! mkPosition x ty))
  ∧ (∀ fuel y c, 0 ≤ y < height w → row_full w y = Ok false →
       clean_loop (S fuel) w y c = clean_loop fuel w (y - 1) c)
  ∧ (∀ fuel, (Z.to_nat (height w) + solid_count (grid w) < fuel)%nat →
       ∃ w', clean_full_lines fuel w = Ok (w', Z.of_nat (nfull (rows w)))
             ∧ wf w' ∧ width w' = width w ∧ height w' = height w
             ∧ rows w' = replicate (nfull (rows w)) (bg_row w)
                         ++ filter (λ r, ¬ full_row r) (rows w))
  ∧ (∀ fuel r, 0 ≤ r < height w →
       (∀ t, 0 ≤ t < height w →
          (∀ x, 0 ≤ x < width w → solid_at (grid w) (mkPosition x t))
          ↔ t = r) →
       (Z.to_nat (height w) + solid_count (grid w) < fuel)%nat →
       ∃ w', clean_full_lines fuel w = Ok (w', 1)
             ∧ ∀ x, 0 ≤ x < width w →
                 grid w' !! mkPosition x 0 = Some BACKGROUND_CELL
                 ∧ (∀ ty, 0 < ty ≤ r →
                      grid w' !! mkPosition x ty
                      = grid w !! mkPosition x (ty - 1))
                 ∧ (∀ ty, r < ty →
                      grid w' !! mkPosition x ty = grid w !! mkPosition x ty)).
Proof.
  intros Hwf Hw. split_and!.
  - done.
  - intros fuel y c Hy. rewrite clean_loop_unfold. by rewrite decide_False by lia.
  - intros y Hy. by apply row_full_spec.
  - intros fuel y c Hy Hfull.
    destruct (collapse_spec w y) as (w' & Hc & Hw' & Hh' & _); [done..|].
    exists w'. split_and!; try done.
    + rewrite clean_loop_unfold, decide_True by lia.
      rewrite Hfull. cbn [res_bind]. by rewrite Hc.
    + by eapply collapse_wf.
    + by apply (collapse_cells w y w').
  - intros fuel y c Hy Hfull.
    rewrite clean_loop_unfold, decide_True by lia. by rewrite Hfull.
  - intros fuel Hfuel. rewrite solid_count_rows in Hfuel by done.
    by apply clean_full_lines_spec.
  - intros fuel r Hr Hone Hfuel. rewrite solid_count_rows in Hfuel by done.
    destruct (clean_single_row fuel w r) as (w' & Hc & Hrun); [done..| |done|].
    { intros t Ht. rewrite row_of_full by done. by apply Hone. }
    exists w'. split; [done|]. by apply (collapse_cells w r w').
Qed.

Lemma C1_clean_full_lines_witness :
  wf c1_world ∧ 0 < width c1_world
  ∧ ∃ w', clean_full_lines 10 c1_world = Ok (w', 1)
          ∧ grid w' !! mkPosition 0 2 = Some (mkCell c1_color true)
          ∧ grid w' !! mkPosition 1 2 = Some BACKGROUND_CELL
          ∧ grid w' !! mkPosition 0 0 = Some BACKGROUND_CELL.
Proof.
  assert (wf c1_world) as Hwf by (apply stamp_wf, World_init_wf).
  assert (width c1_world = 2) as Hw2 by (vm_compute; reflexivity).
  assert (height c1_world = 3) as Hh3 by (vm_compute; reflexivity).
  assert (0 < width c1_world) as Hw by lia.
  split; [exact Hwf|]. split; [exact Hw|].
  destruct (C1_clean_full_lines c1_world Hwf Hw)
    as (_ & _ & _ & _ & _ & _ & Hone).
  destruct (Hone 10%nat 2) as (w' & Hrun & Hcells).
  - lia.
  - intros t Ht. split.
    + intros Hall. destruct (decide (t = 2)) as [|Hne]; [done|].
      exfalso. assert (t = 0 ∨ t = 1) as [-> | ->] by lia.
      * destruct (Hall 0) as (c & Hc & Hs); [lia|].
        vm_compute in Hc. by injection Hc as <-.
      * destruct (Hall 1) as (c & Hc & Hs); [lia|].
        vm_compute in Hc. by injection Hc as <-.
    + intros -> x Hx. assert (x = 0 ∨ x = 1) as [-> | ->] by lia.
      all: eexists; split; [vm_compute; reflexivity|done].
  - rewrite Hh3. vm_compute. lia.
  - exists w'. split; [exact Hrun|].
    destruct (Hcells 0) as (H00 & Hup0 & _); [lia|].
    destruct (Hcells 1) as (_ & Hup1 & _); [lia|].
    rewrite (Hup0 2), (Hup1 2) by lia. split_and!; [|  |exact H00].
    + vm_compute. reflexivity.
    + vm_compute. reflexivity.
Defined.

(** C10. On a grid with [width, height > 0] whose mapping is total, an
    iteration of the loop of [clean_full_lines] at row [y] either moves to
    row [y-1] on the same grid, or collapses the grid and stays at [y], and
    then the grid has strictly fewer solid cells (exactly [width] fewer);
    hence the call returns once it is given more than
    [height + solid_count] iterations. *)
Theorem C10_clean_full_lines_terminates (w : World) :
  wf w → 0 < width w → 0 < height w →
  (∀ fuel y c, 0 ≤ y < height w →
     (row_full w y = Ok false
      ∧ clean_loop (S fuel) w y c = clean_loop fuel w (y - 1) c)
     ∨ (row_full w y = Ok true
        ∧ ∃ w', collapse w y = Ok w'
                ∧ clean_loop (S fuel) w y c = clean_loop fuel w' y (c + 1)
                ∧ wf w' ∧ width w' = width w ∧ height w' = height w
                ∧ (solid_count (grid w') + Z.to_nat (width w))%nat
                  = solid_count (grid w)
                ∧ (solid_count (grid w') < solid_count (grid w))%nat))
  ∧ (∀ fuel, (Z.to_nat (height w) + solid_count (grid w) < fuel)%nat →
       ∃ w' n, clean_full_lines fuel w = Ok (w', n)).
Proof.
  intros Hwf Hw Hh. split.
  - intros fuel y c Hy. rewrite clean_loop_unfold, decide_True by lia.
    rewrite row_full_row_of by done. cbn [res_bind].
    destruct (bool_decide (full_row (row_of w y))) eqn:Hfull.
    + right. split; [done|]. apply bool_decide_eq_true in Hfull.
      destruct (collapse_spec w y) as (w' & Hc & Hw' & Hh' & _); [done..|].
      pose proof (collapse_wf w y w' Hwf Hy Hc) as Hwf'.
      pose proof (collapse_solid_in w y w' Hwf Hy Hfull Hc) as Hsol.
      rewrite <- !solid_count_rows in Hsol by done.
      exists w'. rewrite Hc. split_and!; try done. lia.
    + by left.
  - intros fuel Hfuel. rewrite solid_count_rows in Hfuel by done.
    destruct (clean_full_lines_spec fuel w) as (w' & Hrun & _); [done..|].
    by eexists _, _.
Qed.

Lemma C10_clean_full_lines_terminates_witness :
  wf c1_world ∧ 0 < width c1_world ∧ 0 < height c1_world
  ∧ ∃ w' n, clean_full_lines 7 c1_world = Ok (w', n).
Proof.
  assert (wf c1_world) as Hwf by (apply stamp_wf, World_init_wf).
  assert (width c1_world = 2) as Hw2 by (vm_compute; reflexivity).
  assert (height c1_world = 3) as Hh3 by (vm_compute; reflexivity).
  split; [exact Hwf|]. split; [lia|]. split; [lia|].
  destruct (C10_clean_full_lines_terminates c1_world Hwf) as [_ Hterm];
    [lia|lia|].
  apply Hterm. rewrite Hh3. vm_compute. lia.
Defined.

(** C5. The mapping of a world built by the constructor and any sequence of
    [stamp] and (returning) [clean_full_lines] calls has an entry at
    exactly the positions of [[0,width) × [0,height)]: its domain is that
    set, and its size is the number of those positions, which is
    [width * height] (the dimensions being non-negative). *)
Theorem C5_grid_total (w : World) :
  reachable w →
  (∀ p, is_Some (grid w !! p) ↔ in_bounds w p)
  ∧ dom (grid w) = list_to_set (positions (width w) (height w))
  ∧ size (grid w) = (Z.to_nat (width w) * Z.to_nat (height w))%nat
  ∧ (0 ≤ width w → 0 ≤ height w →
     Z.of_nat (size (grid w)) = width w * height w).
Proof.
  intros Hwf%reachable_wf. split_and!.
  - exact Hwf.
  - by apply wf_dom.
  - by apply wf_size.
  - intros Hw Hh. rewrite wf_size by done. lia.
Qed.

Lemma c1_world_cleaned :
  clean_full_lines 7 c1_world
  = Ok (stamp c1_color [mkPosition 0 2] (World_init 2 3), 1).
Proof. vm_compute. reflexivity. Qed.

Lemma C5_grid_total_witness :
  reachable (stamp c1_color [mkPosition 0 2] (World_init 2 3))
  ∧ size (grid (stamp c1_color [mkPosition 0 2] (World_init 2 3))) = 6%nat.
Proof.
  assert (reachable (stamp c1_color [mkPosition 0 2] (World_init 2 3)))
    as Hr.
  { eapply (reachable_clean 7 c1_world); [|exact c1_world_cleaned].
    apply reachable_stamp, reachable_init. }
  split; [exact Hr|].
  destruct (C5_grid_total _ Hr) as (_ & _ & Hsize & _). exact Hsize.
Defined.

(** C7. On every world the program can build, [pos_is_free] is true
    exactly at the positions of [[0,width) × [0,height)] whose cell is not
    solid; outside that rectangle it is false. *)
Theorem C7_pos_is_free (w : World) (p : Position) :
  reachable w →
  (pos_is_free w p = true
   ↔ in_bounds w p ∧ ∃ c, grid w !! p = Some c ∧ solid c = false)
  ∧ (¬ in_bounds w p → pos_is_free w p = false).
Proof.
  intros Hwf%reachable_wf. unfold pos_is_free. split.
  - split.
    + destruct (grid w !! p) as [c|] eqn:Hc; [|done].
      intros Hs%negb_true_iff. split; [|by eauto].
      apply Hwf. by eexists.
    + intros (_ & c & -> & ->). done.
  - intros Hout. destruct (grid w !! p) as [c|] eqn:Hc; [|done].
    exfalso. apply Hout, Hwf. by eexists.
Qed.

Lemma C7_pos_is_free_witness :
  reachable c1_world
  ∧ pos_is_free c1_world (mkPosition 0 0) = true
  ∧ pos_is_free c1_world (mkPosition 0 2) = false
  ∧ pos_is_free c1_world (mkPosition 2 0) = false.
Proof.
  assert (reachable c1_world) as Hr by apply reachable_stamp, reachable_init.
  assert (width c1_world = 2) as Hw2 by (vm_compute; reflexivity).
  assert (height c1_world = 3) as Hh3 by (vm_compute; reflexivity).
  split; [exact Hr|]. split_and!.
  - apply (C7_pos_is_free c1_world (mkPosition 0 0) Hr). split.
    + unfold in_bounds. rewrite Hw2, Hh3. simpl. lia.
    + eexists. split; [vm_compute; reflexivity|done].
  - vm_compute. reflexivity.
  - apply (C7_pos_is_free c1_world (mkPosition 2 0) Hr).
    unfold in_bounds. rewrite Hw2. simpl. lia.
Defined.

(** C6. [stamp] turns each listed position that is free into the solid
    cell of the given colour and leaves every other entry of the mapping
    as it was: a position that is not free (already solid, or absent from
    the mapping, as every out-of-bounds position is) and a position that
    is not listed.  Stamping the same positions again, in any colour,
    changes nothing. *)
Theorem C6_stamp (w : World) (c : Color) (ps : list Position) :
  (∀ p, p ∈ ps → pos_is_free w p = true →
        grid (stamp c ps w) !! p = Some (mkCell c true))
  ∧ (∀ p, solid_at (grid w) p ∨ grid w !! p = None →
          grid (stamp c ps w) !! p = grid w !! p)
  ∧ (∀ p, p ∉ ps → grid (stamp c ps w) !! p = grid w !! p)
  ∧ (∀ p, ¬ in_bounds w p → wf w → grid (stamp c ps w) !! p = None)
  ∧ width (stamp c ps w) = width w ∧ height (stamp c ps w) = height w
  ∧ (∀ c', stamp c' ps (stamp c ps w) = stamp c ps w).
Proof.
  split_and!.
  - intros p Hp Hfree. rewrite stamp_lookup. by rewrite decide_True.
  - intros p Hp. rewrite stamp_lookup. rewrite decide_False; [done|].
    intros [_ Hfree]. unfold pos_is_free in Hfree.
    destruct Hp as [(c0 & Hc0 & Hs)| Hnone].
    + rewrite Hc0, Hs in Hfree. done.
    + by rewrite Hnone in Hfree.
  - intros p Hp. rewrite stamp_lookup. rewrite decide_False; [done|]. tauto.
  - intros p Hout Hwf. apply eq_None_not_Some.
    rewrite (stamp_wf c ps w Hwf p). unfold in_bounds.
    by rewrite stamp_width, stamp_height.
  - apply stamp_width.
  - apply stamp_height.
  - intros c'. apply stamp_stamp.
Qed.

(** ** Scoring, pieces and the game state *)

(** C2. [calculate_score_increase] returns 0, 100, 200, 400, 800 for 0, 1,
    2, 3, 4, and for every other integer its assertion fails: it returns a
    value only on [[0,4]]. *)
Theorem C2_calculate_score_increase :
  calculate_score_increase 0 = Ok 0
  ∧ calculate_score_increase 1 = Ok 100
  ∧ calculate_score_increase 2 = Ok 200
  ∧ calculate_score_increase 3 = Ok 400
  ∧ calculate_score_increase 4 = Ok 800
  ∧ (∀ n, n < 0 ∨ 4 < n → calculate_score_increase n = Raise AssertionError)
  ∧ (∀ n v, calculate_score_increase n = Ok v → 0 ≤ n ≤ 4).
Proof.
  split_and!; try done.
  - intros n Hn. unfold calculate_score_increase.
    by rewrite decide_False by lia.
  - intros n v. unfold calculate_score_increase.
    destruct (decide (0 ≤ n ≤ 4)); [done|]. discriminate.
Qed.

Lemma rot_right_rot_left p : rot_right (rot_left p) = p.
Proof. destruct p as [x y]. unfold rot_left, rot_right. simpl. f_equal. lia. Qed.

(** C9. For a piece with the THREE_BY_THREE strategy, [rotate_left] followed
    by [rotate_right] gives back the same offsets, pivot, colour and
    strategy, because [rot_right (rot_left p) = p] for every position. *)
Theorem C9_rotate_round_trip (t : Tetrimino) :
  rotation_strategy t = THREE_BY_THREE →
  (∀ p, rot_right (rot_left p) = p)
  ∧ block_offsets (rotate_right (rotate_left t)) = block_offsets t
  ∧ center_pos (rotate_right (rotate_left t)) = center_pos t
  ∧ piece_color (rotate_right (rotate_left t)) = piece_color t
  ∧ rotation_strategy (rotate_right (rotate_left t)) = rotation_strategy t
  ∧ rotate_right (rotate_left t) = t.
Proof.
  intros Hs.
  assert (map rot_right (map rot_left (block_offsets t)) = block_offsets t)
    as Hoff.
  { induction (block_offsets t) as [|p l IH]; [done|].
    simpl. by rewrite rot_right_rot_left, IH. }
  destruct t as [cp offs col strat]. simpl in *. subst strat.
  unfold rotate_left, rotate_right. simpl. rewrite Hoff.
  split_and!; try done. apply rot_right_rot_left.
Qed.

Lemma C9_rotate_round_trip_witness :
  rotation_strategy l_piece = THREE_BY_THREE
  ∧ block_offsets (rotate_left l_piece) = [XY 0 0; XY 0 (-1); XY 0 1; XY (-1) 1]
  ∧ rotate_right (rotate_left l_piece) = l_piece.
Proof.
  split; [reflexivity|]. split; [reflexivity|].
  apply (C9_rotate_round_trip l_piece). reflexivity.
Defined.

(** C4. Whatever the state, [reset] leaves score 0, level 1, no cleared
    line, [running] true, a grid of the former width and height whose
    mapping holds the non-solid background cell at every position of the
    rectangle and nothing else, the piece drawn by the supply's redraw as
    active piece, and a newly drawn piece in the supply. *)
Theorem C4_reset (d1 d2 : Shape) (s : GameState) :
  score (reset d1 d2 s) = 0
  ∧ level (reset d1 d2 s) = 1
  ∧ lines_cleared (reset d1 d2 s) = 0
  ∧ running (reset d1 d2 s) = true
  ∧ width (world (reset d1 d2 s)) = width (world s)
  ∧ height (world (reset d1 d2 s)) = height (world s)
  ∧ world (reset d1 d2 s) = World_init (width (world s)) (height (world s))
  ∧ (∀ p, grid (world (reset d1 d2 s)) !! p
          = if decide (in_bounds (world s) p) then Some BACKGROUND_CELL
            else None)
  ∧ solid BACKGROUND_CELL = false
  ∧ tetrimino (reset d1 d2 s) = _choose d1
  ∧ next_tetrimino (t_factory (reset d1 d2 s)) = _choose d2.
Proof.
  split_and!; try done. intros p. simpl. rewrite init_grid_lookup. done.
Qed.

(** C8. A move left, right or down, or a rotation, whose proposed piece is
    not legal in the grid returns normally and leaves the whole state as it
    was. *)
Theorem C8_illegal_proposal_dropped
    (fuel : nat) (d1 d2 : Shape) (s : GameState) :
  (is_legal_in (move_offset (tetrimino s) MOVE_LEFT) (world s) = false →
   handle_player_input fuel d1 d2 s K_LEFT = Ok (s, false))
  ∧ (is_legal_in (move_offset (tetrimino s) MOVE_RIGHT) (world s) = false →
     handle_player_input fuel d1 d2 s K_RIGHT = Ok (s, false))
  ∧ (is_legal_in (move_offset (tetrimino s) MOVE_DOWN) (world s) = false →
     handle_player_input fuel d1 d2 s K_DOWN = Ok (s, false))
  ∧ (is_legal_in (rotate_right (tetrimino s)) (world s) = false →
     handle_player_input fuel d1 d2 s K_UP = Ok (s, false)).
Proof.
  split_and!; intros Hill; simpl; unfold accept; by rewrite Hill.
Qed.

(** A tick of a running game returns a state when the grid is well formed
    and the lock, if any, completes at most four rows. *)
Lemma update_state_returns fuel d s :
  running s = true → wf (world s) → 0 < width (world s) →
  (nfull (rows (stamp (piece_color (tetrimino s)) (blocks (tetrimino s))
                      (world s))) ≤ 4)%nat →
  (Z.to_nat (height (world s))
   + solid_count (grid (stamp (piece_color (tetrimino s))
                              (blocks (tetrimino s)) (world s))) < fuel)%nat →
  ∃ s', update_state fuel d s = Ok s'.
Proof.
  intros Hr Hwf Hw Hfour Hfuel. unfold update_state. rewrite Hr.
  destruct (is_legal_in _ (world s)); [by eexists|].
  set (w1 := stamp _ _ _) in *.
  assert (wf w1) as Hwf1 by (by apply stamp_wf).
  destruct (clean_full_lines_spec fuel w1) as (w2 & -> & _); [done| | |].
  { unfold w1. by rewrite stamp_width. }
  { rewrite <- solid_count_rows by done. unfold w1 at 1.
    by rewrite stamp_height. }
  cbn [res_bind]. unfold _add_cleared_lines, calculate_score_increase.
  rewrite decide_True by lia.
  repeat (destruct (decide _)); by eexists.
Qed.

(** C3. While [running] is false [update_state] returns the state as it is.
    From a running state it clears [running] exactly when the piece cannot
    move down and the piece popped from the supply is not legal in the grid
    obtained by stamping and clearing; in that branch the new grid is that
    grid and the new piece is the popped one.  No input other than the
    reset key changes [running], and [reset] sets it. *)
Theorem C3_update_state_terminal :
  (∀ fuel d s, running s = false → update_state fuel d s = Ok s)
  ∧ (∀ fuel d s s',
       running s = true → update_state fuel d s = Ok s' →
       (running s' = false
        ↔ is_legal_in (move_offset (tetrimino s) MOVE_DOWN) (world s) = false
          ∧ is_legal_in (next_tetrimino (t_factory s)) (world s') = false)
       ∧ (is_legal_in (move_offset (tetrimino s) MOVE_DOWN) (world s) = false →
          tetrimino s' = next_tetrimino (t_factory s)
          ∧ ∃ n, clean_full_lines fuel
                   (stamp (piece_color (tetrimino s)) (blocks (tetrimino s))
                          (world s))
                 = Ok (world s', n)))
  ∧ (∀ fuel d1 d2 s key s' b,
       key ≠ K_r → handle_player_input fuel d1 d2 s key = Ok (s', b) →
       running s' = running s)
  ∧ (∀ d1 d2 s, running (reset d1 d2 s) = true)
  ∧ (∀ fuel d1 d2 s,
       handle_player_input fuel d1 d2 s K_r = Ok (reset d1 d2 s, false)).
Proof.
  split_and!.
  - intros fuel d s Hr. unfold update_state. by rewrite Hr.
  - intros fuel d s s' Hr. unfold update_state. rewrite Hr.
    destruct (is_legal_in (move_offset (tetrimino s) MOVE_DOWN) (world s))
      eqn:Hdown.
    + intros [= <-]. simpl. split; [|done].
      split; [done|]. by intros [? _].
    + destruct (clean_full_lines fuel _) as [[w2 lines]| |] eqn:Hclean;
        [|done..]. cbn [res_bind]. unfold _add_cleared_lines.
      destruct (calculate_score_increase lines) as [inc| |]; [|done..].
      cbn [res_bind pop_next_tetrimino world running t_factory].
      intros [= <-]. cbn [running world tetrimino]. split.
      * destruct (is_legal_in (next_tetrimino (t_factory s)) w2);
          split; try done. by intros [_ ?].
      * intros _. split; [done|]. by exists lines.
  - intros fuel d1 d2 s key s' b Hkey.
    destruct key; simpl; try done;
      try (intros [= <- <-]; unfold accept;
           repeat (destruct (is_legal_in _ _)); done).
    destruct (hard_drop fuel (world s) (tetrimino s)) as [t| |]; [|done..].
    simpl. intros [= <- <-]. by destruct (is_legal_in _ _).
  - done.
  - done.
Qed.


Lemma blocked_state_tick :
  update_state 5 ShI blocked_state
  = Ok (mkGameState
          (stamp (piece_color o_piece) (blocks o_piece) (World_init 10 4))
          0 t_piece false 1 0 (mkFactory i_piece)).
Proof. vm_compute. reflexivity. Qed.

Lemma C3_update_state_terminal_witness :
  ∃ s', update_state 5 ShI blocked_state = Ok s'
        ∧ running s' = false
        ∧ tetrimino s' = t_piece
        ∧ update_state 5 ShZ s' = Ok s'.
Proof.
  destruct C3_update_state_terminal as (Hstop & Hover & _).
  eexists. split; [exact blocked_state_tick|].
  destruct (Hover 5%nat ShI blocked_state _ eq_refl blocked_state_tick)
    as [_ Hlock].
  split; [reflexivity|]. split; [reflexivity|]. by apply Hstop.
Defined.

Lemma wall_state_left_illegal :
  is_legal_in (move_offset (tetrimino wall_state) MOVE_LEFT)
              (world wall_state) = false.
Proof. vm_compute. reflexivity. Qed.

Lemma C8_illegal_proposal_dropped_witness :
  is_legal_in (move_offset (tetrimino wall_state) MOVE_LEFT)
              (world wall_state) = false
  ∧ handle_player_input 0 ShO ShO wall_state K_LEFT = Ok (wall_state, false).
Proof.
  split; [exact wall_state_left_illegal|].
  apply (C8_illegal_proposal_dropped 0 ShO ShO wall_state).
  exact wall_state_left_illegal.
Defined.

Lemma c1_world_free_1_1 : pos_is_free c1_world (mkPosition 1 1) = true.
Proof. vm_compute. reflexivity. Qed.

Lemma C6_stamp_witness :
  grid (stamp c1_color [mkPosition 1 1; mkPosition 0 2; mkPosition 5 5]
              c1_world) !! mkPosition 1 1
  = Some (mkCell c1_color true)
  ∧ stamp c1_color [mkPosition 1 1; mkPosition 0 2; mkPosition 5 5]
      (stamp c1_color [mkPosition 1 1; mkPosition 0 2; mkPosition 5 5]
             c1_world)
    = stamp c1_color [mkPosition 1 1; mkPosition 0 2; mkPosition 5 5]
            c1_world.
Proof.
  destruct (C6_stamp c1_world c1_color
              [mkPosition 1 1; mkPosition 0 2; mkPosition 5 5])
    as (Hset & _ & _ & _ & _ & _ & Hidem).
  split; [|apply Hidem].
  apply Hset; [apply list_elem_of_here|exact c1_world_free_1_1].
Defined.

(** * Further properties of the engine *)

(** ** [clean_full_lines]: the result does not depend on the fuel *)

Lemma clean_loop_fuel_mono fuel : ∀ w y c r,
  clean_loop fuel w y c = r → r ≠ OutOfFuel →
  ∀ fuel', (fuel ≤ fuel')%nat → clean_loop fuel' w y c = r.
Proof.
  induction fuel as [|fuel IH]; intros w y c r Hrun Hr fuel' Hle.
  { simpl in Hrun. congruence. }
  destruct fuel' as [|fuel']; [lia|].
  rewrite clean_loop_unfold in *.
  destruct (decide (0 ≤ y)); [|done].
  destruct (row_full w y) as [[]| |]; cbn [res_bind] in *; try done.
  - destruct (collapse w y) as [w1| |]; cbn [res_bind] in *; try done.
    apply (IH _ _ _ _ Hrun Hr). lia.
  - apply (IH _ _ _ _ Hrun Hr). lia.
Qed.

(** Whatever fuel made the call return, the result is the one of
    [clean_full_lines_spec]. *)
Lemma clean_full_lines_result fuel w w' n :
  wf w → 0 < width w → clean_full_lines fuel w = Ok (w', n) →
  n = Z.of_nat (nfull (rows w))
  ∧ wf w' ∧ width w' = width w ∧ height w' = height w
  ∧ rows w' = replicate (nfull (rows w)) (bg_row w)
              ++ filter (λ r, ¬ full_row r) (rows w).
Proof.
  intros Hwf Hw Hrun.
  set (big := (fuel + S (Z.to_nat (height w) + solid_in (rows w)))%nat).
  destruct (clean_full_lines_spec big w) as (w2 & Hrun2 & Hrest);
    [done|done|unfold big; lia|].
  unfold clean_full_lines in *.
  rewrite (clean_loop_fuel_mono fuel _ _ _ _ Hrun ltac:(done) big) in Hrun2
    by (unfold big; lia).
  injection Hrun2 as <- ->. done.
Qed.

Lemma nfull_zero_iff R : nfull R = 0%nat ↔ Forall (λ r, ¬ full_row r) R.
Proof.
  unfold nfull. induction R as [|r R IH]; [by split|].
  rewrite filter_cons, Forall_cons. destruct (decide (full_row r)); simpl.
  - split; [lia|]. tauto.
  - rewrite IH. tauto.
Qed.

Lemma filter_not_full_id R :
  Forall (λ r, ¬ full_row r) R → filter (λ r, ¬ full_row r) R = R.
Proof.
  induction 1 as [|r R Hr _ IH]; [done|].
  by rewrite filter_cons_True, IH.
Qed.

Lemma nfull_app R1 R2 : nfull (R1 ++ R2) = (nfull R1 + nfull R2)%nat.
Proof. unfold nfull. by rewrite filter_app, length_app. Qed.

Lemma nfull_replicate_bg w k : 0 < width w → nfull (replicate k (bg_row w)) = 0%nat.
Proof.
  intros Hw. apply nfull_zero_iff, Forall_replicate. by apply bg_row_not_full.
Qed.

Lemma nfull_filter_not_full R : nfull (filter (λ r, ¬ full_row r) R) = 0%nat.
Proof.
  apply nfull_zero_iff. apply Forall_forall.
  by intros r [Hr _]%list_elem_of_filter.
Qed.

Lemma nfull_le_length R : (nfull R ≤ length R)%nat.
Proof. apply length_filter. Qed.

Lemma length_rows w : length (rows w) = Z.to_nat (height w).
Proof. unfold rows, rows_range. by rewrite length_fmap, length_seqZ. Qed.

Lemma rows_no_full w :
  wf w →
  nfull (rows w) = 0%nat
  ↔ ∀ y, 0 ≤ y < height w →
      ¬ ∀ x, 0 ≤ x < width w → solid_at (grid w) (mkPosition x y).
Proof.
  intros Hwf. rewrite nfull_zero_iff. unfold rows, rows_range.
  rewrite Forall_fmap, Forall_seqZ. split; intros Hall y Hy.
  - rewrite <- row_of_full by done. apply Hall. lia.
  - simpl. rewrite row_of_full by (done || lia). apply Hall. lia.
Qed.

Lemma clean_no_full_rows fuel w :
  wf w → 0 < width w → nfull (rows w) = 0%nat →
  (Z.to_nat (height w) + solid_count (grid w) < fuel)%nat →
  clean_full_lines fuel w = Ok (w, 0).
Proof.
  intros Hwf Hw Hnone Hfuel. rewrite solid_count_rows in Hfuel by done.
  destruct (clean_full_lines_spec fuel w)
    as (w' & Hrun & Hwf' & Hw' & Hh' & Hrows); [done..|].
  rewrite Hnone in Hrun, Hrows. simpl in Hrun, Hrows.
  rewrite filter_not_full_id in Hrows by (by apply nfull_zero_iff).
  rewrite Hrun. do 2 f_equal. by apply rows_inj.
Qed.

(** X1. On a total grid with at least one column in which every row has a
    cell that is not solid (the empty grid is one), [clean_full_lines]
    returns 0 and leaves the grid as it is. *)
Theorem X_clean_nothing_to_clear (fuel : nat) (w : World) :
  wf w → 0 < width w →
  (∀ y, 0 ≤ y < height w →
     ¬ ∀ x, 0 ≤ x < width w → solid_at (grid w) (mkPosition x y)) →
  (Z.to_nat (height w) + solid_count (grid w) < fuel)%nat →
  clean_full_lines fuel w = Ok (w, 0).
Proof.
  intros Hwf Hw Hnone Hfuel. apply clean_no_full_rows; try done.
  by apply rows_no_full.
Qed.

Lemma X_clean_nothing_to_clear_witness :
  clean_full_lines 21 World_default = Ok (World_default, 0).
Proof.
  apply X_clean_nothing_to_clear.
  - apply World_init_wf.
  - reflexivity.
  - intros y Hy Hall. destruct (Hall 0) as (c & Hc & Hs); [done|].
    change (grid World_default) with (init_grid 10 20) in Hc.
    rewrite init_grid_lookup in Hc. destruct (decide _); [|done].
    by injection Hc as <-.
  - vm_compute. lia.
Defined.

(** X2. After a returning [clean_full_lines] no row of the grid is full, so
    a second call returns 0 and changes nothing. *)
Theorem X_clean_twice (fuel fuel' : nat) (w w' : World) (n : Z) :
  wf w → 0 < width w → clean_full_lines fuel w = Ok (w', n) →
  (Z.to_nat (height w') + solid_count (grid w') < fuel')%nat →
  (∀ y, 0 ≤ y < height w' →
     ¬ ∀ x, 0 ≤ x < width w' → solid_at (grid w') (mkPosition x y))
  ∧ clean_full_lines fuel' w' = Ok (w', 0).
Proof.
  intros Hwf Hw Hrun Hfuel.
  destruct (clean_full_lines_result fuel w w' n)
    as (_ & Hwf' & Hw' & Hh' & Hrows); [done..|].
  assert (nfull (rows w') = 0%nat) as Hnone.
  { rewrite Hrows, nfull_app, nfull_replicate_bg, nfull_filter_not_full; done. }
  split; [by apply rows_no_full|].
  apply clean_no_full_rows; [done|lia|done|done].
Qed.

Lemma X_clean_twice_witness :
  clean_full_lines 7 (stamp c1_color [mkPosition 0 2] (World_init 2 3))
  = Ok (stamp c1_color [mkPosition 0 2] (World_init 2 3), 0).
Proof.
  assert (wf c1_world) as Hwf by (apply stamp_wf, World_init_wf).
  apply (X_clean_twice 7 7 c1_world _ 1 Hwf).
  - reflexivity.
  - exact c1_world_cleaned.
  - vm_compute. lia.
Defined.

Lemma solid_in_replicate_bg w k : solid_in (replicate k (bg_row w)) = 0%nat.
Proof.
  induction k as [|k IH]; [done|].
  rewrite replicate_S, solid_in_cons, filter_solid_bg_row, IH. done.
Qed.

Lemma solid_in_split_full R W :
  Forall (λ r, length r = W) R →
  solid_in R = (solid_in (filter (λ r, ¬ full_row r) R) + nfull R * W)%nat.
Proof.
  unfold nfull. induction 1 as [|r R Hr _ IH]; [done|].
  rewrite solid_in_cons, !filter_cons, IH.
  destruct (decide (full_row r)) as [Hf|Hf].
  - rewrite decide_False by tauto. rewrite filter_solid_full by done.
    simpl. lia.
  - rewrite decide_True by done. rewrite solid_in_cons. simpl. lia.
Qed.

Lemma rows_lengths w : Forall (λ r, length r = Z.to_nat (width w)) (rows w).
Proof.
  unfold rows, rows_range. apply Forall_fmap, Forall_forall. intros y _.
  apply length_row_of.
Qed.

(** X3. A returning [clean_full_lines] on a total grid returns a count
    between 0 and [height], and it removes exactly [width] solid cells per
    counted row: no other solid cell is lost or created. *)
Theorem X_clean_conservation (fuel : nat) (w w' : World) (n : Z) :
  wf w → 0 < width w → clean_full_lines fuel w = Ok (w', n) →
  0 ≤ n ≤ Z.max 0 (height w)
  ∧ Z.of_nat (solid_count (grid w')) + n * width w
    = Z.of_nat (solid_count (grid w)).
Proof.
  intros Hwf Hw Hrun.
  destruct (clean_full_lines_result fuel w w' n)
    as (-> & Hwf' & Hw' & Hh' & Hrows); [done..|].
  split.
  - pose proof (nfull_le_length (rows w)) as Hle.
    rewrite length_rows in Hle. lia.
  - rewrite !solid_count_rows by done.
    rewrite Hrows, solid_in_app, solid_in_replicate_bg.
    rewrite (solid_in_split_full (rows w) (Z.to_nat (width w)))
      by apply rows_lengths.
    lia.
Qed.

Lemma X_clean_conservation_witness :
  Z.of_nat (solid_count (grid (stamp c1_color [mkPosition 0 2]
                                     (World_init 2 3))))
  + 1 * width c1_world
  = Z.of_nat (solid_count (grid c1_world)).
Proof.
  assert (wf c1_world) as Hwf by (apply stamp_wf, World_init_wf).
  apply (X_clean_conservation 7 c1_world _ 1 Hwf).
  - reflexivity.
  - exact c1_world_cleaned.
Defined.

(** X4. On a world without a column ([width <= 0]) that has a row
    ([height > 0]) the loop of [clean_full_lines] never ends: every row
    counts as full and collapsing it changes nothing. *)
Theorem X_clean_no_column_diverges (w : World) :
  width w ≤ 0 → 0 < height w →
  ∀ fuel, clean_full_lines fuel w = OutOfFuel.
Proof.
  intros Hw Hh fuel. unfold clean_full_lines.
  apply clean_loop_no_column; lia.
Qed.

Lemma X_clean_no_column_diverges_witness :
  clean_full_lines 1000 (World_init 0 1) = OutOfFuel.
Proof.
  apply (X_clean_no_column_diverges (World_init 0 1)); simpl; lia.
Defined.

Lemma clean_loop_no_raise fuel : ∀ w y c e,
  wf w → y < height w → clean_loop fuel w y c ≠ Raise e.
Proof.
  induction fuel as [|fuel IH]; intros w y c e Hwf Hy; [done|].
  rewrite clean_loop_unfold. destruct (decide (0 ≤ y)); [|done].
  rewrite row_full_row_of by (done || lia). cbn [res_bind].
  destruct (bool_decide _).
  - destruct (collapse_spec w y) as (w1 & Hc & _ & Hh1 & _); [done|lia|].
    rewrite Hc. cbn [res_bind]. apply IH; [|lia].
    eapply collapse_wf; [done| |done]. lia.
  - apply IH; [done|lia].
Qed.

(** X5. On a grid whose mapping is total [clean_full_lines] raises no
    exception, whatever the number of iterations it is given. *)
Theorem X_clean_no_exception (fuel : nat) (w : World) (e : exn) :
  wf w → clean_full_lines fuel w ≠ Raise e.
Proof. intros Hwf. apply clean_loop_no_raise; [done|lia]. Qed.

Lemma X_clean_no_exception_witness :
  clean_full_lines 3 c1_world ≠ Raise KeyError.
Proof.
  apply X_clean_no_exception. apply stamp_wf, World_init_wf.
Defined.

(** X6. When the mapping lacks the first cell of the bottom row, the first
    row test of [clean_full_lines] raises [KeyError]. *)
Theorem X_clean_missing_key (fuel : nat) (w : World) :
  0 < width w → 0 < height w →
  grid w !! mkPosition 0 (height w - 1) = None →
  clean_full_lines (S fuel) w = Raise KeyError.
Proof.
  intros Hw Hh Hnone. unfold clean_full_lines.
  rewrite clean_loop_unfold, decide_True by lia.
  unfold row_full. rewrite seqZ_cons by done. simpl. by rewrite Hnone.
Qed.

Lemma X_clean_missing_key_witness :
  clean_full_lines 1 (mkWorld ∅ 1 1) = Raise KeyError.
Proof. apply (X_clean_missing_key 0 (mkWorld ∅ 1 1)); simpl; (lia || done). Defined.

(** ** Legality of a piece and [stamp] *)

Lemma all_free_spec w bs :
  all_free w bs = true ↔ ∀ b, b ∈ bs → pos_is_free w b = true.
Proof.
  induction bs as [|b bs IH]; simpl.
  - split; [|done]. intros _ b Hb. by apply elem_of_nil in Hb.
  - destruct (pos_is_free w b) eqn:Hb.
    + rewrite IH. split.
      * intros Hall b' [->|Hb']%elem_of_cons; [done|by apply Hall].
      * intros Hall b' Hb'. apply Hall. by right.
    + split; [done|]. intros Hall. rewrite <- Hb. apply Hall. by left.
Qed.

Lemma is_legal_in_spec t w :
  is_legal_in t w = true ↔ ∀ b, b ∈ blocks t → pos_is_free w b = true.
Proof. apply all_free_spec. Qed.

Lemma reachable_free w p :
  reachable w →
  pos_is_free w p = true
  ↔ in_bounds w p ∧ ∃ c, grid w !! p = Some c ∧ solid c = false.
Proof.
  intros Hwf%reachable_wf. unfold pos_is_free. split.
  - destruct (grid w !! p) as [c|] eqn:Hc; [|done].
    intros Hs%negb_true_iff. split; [|by eauto]. apply Hwf. by eexists.
  - intros (_ & c & -> & ->). done.
Qed.

(** X7. On every world the program can build, a piece is legal exactly when
    each of its blocks lies in [[0,width) × [0,height)] on a cell that is
    not solid; a piece without blocks is legal everywhere. *)
Theorem X_is_legal_in (t : Tetrimino) (w : World) :
  reachable w →
  (is_legal_in t w = true
   ↔ ∀ b, b ∈ blocks t →
       in_bounds w b ∧ ∃ c, grid w !! b = Some c ∧ solid c = false)
  ∧ (block_offsets t = [] → is_legal_in t w = true).
Proof.
  intros Hr. split.
  - rewrite is_legal_in_spec. split; intros Hall b Hb.
    + apply reachable_free; [done|]. by apply Hall.
    + apply reachable_free; [done|]. by apply Hall.
  - intros Hnil. unfold is_legal_in, blocks. by rewrite Hnil.
Qed.

Lemma X_is_legal_in_witness :
  is_legal_in l_piece World_default = true
  ∧ ∀ b, b ∈ blocks l_piece →
      in_bounds World_default b
      ∧ ∃ c, grid World_default !! b = Some c ∧ solid c = false.
Proof.
  assert (is_legal_in l_piece World_default = true) as Hl
    by (vm_compute; reflexivity).
  split; [exact Hl|].
  by apply (X_is_legal_in l_piece World_default (reachable_init 10 20)).
Defined.

(** X8. After [stamp] a position is free exactly when it was free before
    and is not one of the stamped positions.  So a piece that is legal
    after the stamp was legal before it, and a piece with a block among
    the stamped positions is not legal after it. *)
Theorem X_stamp_free (c : Color) (ps : list Position) (w : World) :
  (∀ p, pos_is_free (stamp c ps w) p = true
        ↔ pos_is_free w p = true ∧ p ∉ ps)
  ∧ (∀ t, is_legal_in t (stamp c ps w) = true → is_legal_in t w = true)
  ∧ (∀ t b, b ∈ blocks t → b ∈ ps → is_legal_in t (stamp c ps w) = false).
Proof.
  assert (∀ p, pos_is_free (stamp c ps w) p = true
               ↔ pos_is_free w p = true ∧ p ∉ ps) as Hfree.
  { intros p. destruct (decide (p ∈ ps)) as [Hp|Hp].
    - rewrite stamp_free_false by done. split; [done|]. tauto.
    - unfold pos_is_free at 1. rewrite stamp_lookup.
      rewrite decide_False by tauto. fold (pos_is_free w p). tauto. }
  split; [exact Hfree|]. split.
  - intros t. rewrite !is_legal_in_spec. intros Hall b Hb.
    by apply Hfree, Hall.
  - intros t b Hb Hps. apply not_true_is_false. rewrite is_legal_in_spec.
    intros Hall. apply Hall, Hfree in Hb. tauto.
Qed.

(** X9. The result of [stamp] depends only on which positions are listed,
    not on their order or repetition. *)
Theorem X_stamp_order (c : Color) (ps ps' : list Position) (w : World) :
  (∀ p, p ∈ ps ↔ p ∈ ps') → stamp c ps w = stamp c ps' w.
Proof.
  intros Hsame. apply World_eq;
    [|by rewrite !stamp_width|by rewrite !stamp_height].
  apply map_eq. intros p. rewrite !stamp_lookup. apply decide_ext.
  by rewrite Hsame.
Qed.

Lemma X_stamp_order_witness :
  stamp c1_color [mkPosition 0 0; mkPosition 1 1] c1_world
  = stamp c1_color [mkPosition 1 1; mkPosition 0 0; mkPosition 1 1] c1_world.
Proof.
  apply X_stamp_order. intros p. rewrite !elem_of_cons, !elem_of_nil. tauto.
Defined.

(** ** Counting after [stamp] *)

Lemma solid_count_insert_fresh (g : gmap Position Cell) p c :
  g !! p = None →
  solid_count (<[p:=c]> g)
  = ((if solid c then 1 else 0) + solid_count g)%nat.
Proof.
  intros Hnone. unfold solid_count.
  rewrite (map_to_list_insert g p c Hnone). rewrite fmap_cons, filter_cons.
  cbn [snd]. destruct (decide (solid c = true)) as [->|Hn]; [done|].
  by destruct (solid c).
Qed.

Lemma solid_count_insert (g : gmap Position Cell) p c c0 :
  g !! p = Some c0 →
  (solid_count (<[p:=c]> g) + (if solid c0 then 1 else 0))%nat
  = (solid_count g + (if solid c then 1 else 0))%nat.
Proof.
  intros Hsome.
  rewrite <- (insert_delete_id g p c0 Hsome) at 2.
  rewrite <- (insert_delete_eq g p c).
  rewrite !solid_count_insert_fresh by apply lookup_delete_eq. lia.
Qed.

Lemma stamp_one_solid_count c w p :
  solid_count (grid (stamp_one c w p))
  = (solid_count (grid w) + if pos_is_free w p then 1 else 0)%nat.
Proof.
  unfold stamp_one, pos_is_free.
  destruct (grid w !! p) as [c0|] eqn:Hc0; [|simpl; lia].
  destruct (solid c0) eqn:Hs; simpl; [lia|].
  pose proof (solid_count_insert (grid w) p (mkCell c true) c0 Hc0) as Hins.
  rewrite Hs in Hins. simpl in Hins. lia.
Qed.

Lemma stamp_cons c p ps w : stamp c (p :: ps) w = stamp c ps (stamp_one c w p).
Proof. done. Qed.

Lemma filter_ext_in {A} (P1 P2 : A → Prop)
    `{!∀ x, Decision (P1 x), !∀ x, Decision (P2 x)} (l : list A) :
  (∀ x, x ∈ l → P1 x ↔ P2 x) → filter P1 l = filter P2 l.
Proof.
  induction l as [|a l IH]; intros Hiff; [done|].
  rewrite !filter_cons.
  rewrite IH by (intros x Hx; apply Hiff; by right).
  destruct (decide (P1 a)) as [H1|H1].
  - rewrite decide_True; [done|]. apply Hiff; [by left|done].
  - rewrite decide_False; [done|]. intros H2. apply H1, Hiff; [by left|done].
Qed.

Lemma stamp_solid_count_NoDup c ps : ∀ w,
  NoDup ps →
  solid_count (grid (stamp c ps w))
  = (solid_count (grid w)
     + length (filter (λ p, pos_is_free w p = true) ps))%nat.
Proof.
  induction ps as [|p ps IH]; intros w Hnd; [simpl; lia|].
  apply NoDup_cons in Hnd as [Hp Hnd].
  rewrite stamp_cons, IH, stamp_one_solid_count by done.
  rewrite filter_cons.
  rewrite (filter_ext_in (λ q, pos_is_free (stamp_one c w p) q = true)
                         (λ q, pos_is_free w q = true)).
  - destruct (pos_is_free w p) eqn:Hfree.
    + rewrite decide_True by done. simpl. lia.
    + rewrite decide_False by done. lia.
  - intros q Hq. rewrite stamp_one_free.
    rewrite decide_False; [done|]. by intros ->.
Qed.

(** X10. [stamp] makes exactly one more cell solid for each distinct listed
    position that was free, and no cell less. *)
Theorem X_stamp_solid_count (c : Color) (ps : list Position) (w : World) :
  solid_count (grid (stamp c ps w))
  = (solid_count (grid w)
     + length (filter (λ p, pos_is_free w p = true) (remove_dups ps)))%nat.
Proof.
  rewrite <- (stamp_solid_count_NoDup c) by apply NoDup_remove_dups.
  do 2 f_equal. apply World_eq;
    [|by rewrite !stamp_width|by rewrite !stamp_height].
  apply map_eq. intros p. rewrite !stamp_lookup. apply decide_ext.
  by rewrite elem_of_remove_dups.
Qed.

(** ** Full rows after [stamp] *)

Lemma length_filter_fmap {A B} (f : A → B) (P : B → Prop)
    `{!∀ x, Decision (P x)} (l : list A) :
  length (filter P (f <$> l)) = length (filter (λ a, P (f a)) l).
Proof.
  induction l as [|a l IH]; [done|].
  rewrite fmap_cons, !filter_cons. destruct (decide (P (f a))); simpl; lia.
Qed.

Lemma nfull_rows w :
  nfull (rows w)
  = length (filter (λ y, full_row (row_of w y)) (seqZ 0 (height w))).
Proof. unfold nfull, rows, rows_range. apply length_filter_fmap. Qed.

Lemma stamp_row_of_full c ps w y :
  full_row (row_of w y) → full_row (row_of (stamp c ps w) y).
Proof.
  unfold full_row, row_of. rewrite !Forall_fmap, stamp_width.
  intros Hold. eapply Forall_impl; [exact Hold|].
  intros x. simpl. rewrite !lookup_total_alt, stamp_lookup.
  destruct (decide _); [done|]. done.
Qed.

Lemma stamp_row_of_new_full c ps w y :
  full_row (row_of (stamp c ps w) y) → ¬ full_row (row_of w y) →
  y ∈ pos_y <$> ps.
Proof.
  unfold full_row, row_of. rewrite !Forall_fmap, stamp_width.
  unfold compose. intros Hnew Hold.
  apply not_Forall_Exists in Hold; [|intros x; apply _].
  apply Exists_exists in Hold as (x & Hx & Hns). simpl in Hns.
  rewrite Forall_forall in Hnew. specialize (Hnew x Hx). simpl in Hnew.
  rewrite !lookup_total_alt, stamp_lookup in Hnew.
  destruct (decide _) as [[Hps _]|_].
  - apply list_elem_of_fmap. by exists (mkPosition x y).
  - by rewrite lookup_total_alt in Hns.
Qed.

Lemma stamp_nfull_bounds (c : Color) (ps : list Position) (w : World) :
  (nfull (rows w) ≤ nfull (rows (stamp c ps w)))%nat
  ∧ (nfull (rows (stamp c ps w)) ≤ nfull (rows w) + length ps)%nat.
Proof.
  rewrite !nfull_rows, stamp_height.
  set (ys := seqZ 0 (height w)).
  set (L := filter (λ y, full_row (row_of w y)) ys).
  set (L1 := filter (λ y, full_row (row_of (stamp c ps w) y)) ys).
  assert (NoDup ys) as Hys by apply NoDup_seqZ.
  split.
  - apply submseteq_length, NoDup_submseteq; [by apply NoDup_filter|].
    intros y [Hy Hin]%list_elem_of_filter. apply list_elem_of_filter.
    split; [by apply stamp_row_of_full|done].
  - rewrite <- (length_fmap pos_y ps), <- length_app.
    apply submseteq_length, NoDup_submseteq; [by apply NoDup_filter|].
    intros y [Hy Hin]%list_elem_of_filter. apply elem_of_app.
    destruct (decide (full_row (row_of w y))) as [Hf|Hf].
    + left. by apply list_elem_of_filter.
    + right. by eapply stamp_row_of_new_full.
Qed.


(** ** Moving and rotating a piece *)

Lemma Position_eq p q : pos_x p = pos_x q → pos_y p = pos_y q → p = q.
Proof. destruct p, q; simpl; congruence. Qed.

Lemma translate_assoc p a b :
  translate (translate p a) b = translate p (translate a b).
Proof. apply Position_eq; simpl; lia. Qed.

Lemma translate_swap p a b :
  translate (translate p a) b = translate (translate p b) a.
Proof. apply Position_eq; simpl; lia. Qed.

(** X12. Moving a piece by an offset moves each of its blocks by that
    offset and keeps its shape, colour and strategy; two moves are the move
    by the sum of the offsets, so a move left followed by a move right, or
    a move by the zero offset, gives the piece back. *)
Theorem X_move_offset (t : Tetrimino) (a b : Position) :
  blocks (move_offset t a) = (λ p, translate p a) <$> blocks t
  ∧ block_offsets (move_offset t a) = block_offsets t
  ∧ piece_color (move_offset t a) = piece_color t
  ∧ rotation_strategy (move_offset t a) = rotation_strategy t
  ∧ move_offset (move_offset t a) b = move_offset t (translate a b)
  ∧ move_offset (move_offset t MOVE_LEFT) MOVE_RIGHT = t
  ∧ move_offset t (mkPosition 0 0) = t.
Proof.
  split_and!; try done.
  - unfold blocks, move_offset. simpl. rewrite <- list_fmap_compose.
    apply list_fmap_ext. intros i p _. simpl. apply translate_swap.
  - unfold move_offset. simpl. by rewrite translate_assoc.
  - destruct t as [cp offs col strat]. unfold move_offset. simpl. f_equal.
    apply Position_eq; simpl; lia.
  - destruct t as [cp offs col strat]. unfold move_offset. simpl. f_equal.
    apply Position_eq; simpl; lia.
Qed.

Lemma rot_left_rot_right p : rot_left (rot_right p) = p.
Proof. apply Position_eq; simpl; lia. Qed.

Lemma rot_right_four p : rot_right (rot_right (rot_right (rot_right p))) = p.
Proof. apply Position_eq; simpl; lia. Qed.

Lemma rot_left_as_right p : rot_left p = rot_right (rot_right (rot_right p)).
Proof. apply Position_eq; simpl; lia. Qed.

Lemma map_id_ext {A} (f : A → A) (l : list A) :
  (∀ x, f x = x) → map f l = l.
Proof. intros Hf. induction l as [|x l IH]; [done|]. simpl. by rewrite Hf, IH. Qed.

(** X13. For every piece, whatever its strategy, the two rotations undo
    each other, four right rotations give the piece back, and a left
    rotation is three right rotations; a NO_ROTATION piece is returned as
    it is. *)
Theorem X_rotation_cycle (t : Tetrimino) :
  rotate_left (rotate_right t) = t
  ∧ rotate_right (rotate_left t) = t
  ∧ rotate_right (rotate_right (rotate_right (rotate_right t))) = t
  ∧ rotate_left t = rotate_right (rotate_right (rotate_right t))
  ∧ (rotation_strategy t = NO_ROTATION →
     rotate_left t = t ∧ rotate_right t = t).
Proof.
  destruct t as [cp offs col [|]]; unfold rotate_left, rotate_right; simpl;
    split_and!; try done.
  - f_equal. rewrite map_map. apply map_id_ext, rot_left_rot_right.
  - f_equal. rewrite map_map. apply map_id_ext, rot_right_rot_left.
  - f_equal. rewrite !map_map. apply map_id_ext, rot_right_four.
  - f_equal. rewrite !map_map. apply map_ext, rot_left_as_right.
Qed.

(** X14. A rotation keeps the pivot, the colour and the number of blocks,
    keeps the offsets within any square [[-k,k] × [-k,k]] that held them,
    and commutes with moving the piece. *)
Theorem X_rotation_geometry (t : Tetrimino) (k : Z) (a : Position) :
  center_pos (rotate_right t) = center_pos t
  ∧ center_pos (rotate_left t) = center_pos t
  ∧ piece_color (rotate_right t) = piece_color t
  ∧ piece_color (rotate_left t) = piece_color t
  ∧ length (blocks (rotate_right t)) = length (blocks t)
  ∧ length (blocks (rotate_left t)) = length (blocks t)
  ∧ (Forall (λ p, -k ≤ pos_x p ≤ k ∧ -k ≤ pos_y p ≤ k) (block_offsets t) →
     Forall (λ p, -k ≤ pos_x p ≤ k ∧ -k ≤ pos_y p ≤ k)
            (block_offsets (rotate_right t))
     ∧ Forall (λ p, -k ≤ pos_x p ≤ k ∧ -k ≤ pos_y p ≤ k)
              (block_offsets (rotate_left t)))
  ∧ rotate_right (move_offset t a) = move_offset (rotate_right t) a
  ∧ rotate_left (move_offset t a) = move_offset (rotate_left t) a.
Proof.
  destruct t as [cp offs col [|]]; unfold rotate_left, rotate_right, blocks;
    simpl; split_and!; try done.
  - by rewrite !length_map.
  - by rewrite !length_map.
  - intros Hin. split; apply Forall_fmap; (eapply Forall_impl; [exact Hin|]);
      intros p; simpl; lia.
Qed.

(** ** The hard drop *)

Lemma moved_down_S t k :
  moved_down t (S k) = move_offset (moved_down t k) MOVE_DOWN.
Proof. done. Qed.

Lemma moved_down_shift t k :
  moved_down (move_offset t MOVE_DOWN) k = moved_down t (S k).
Proof.
  induction k as [|k IH]; [done|]. by rewrite !moved_down_S, IH.
Qed.

Lemma moved_down_eq t k :
  moved_down t k
  = mkTetrimino (translate (center_pos t) (mkPosition 0 (Z.of_nat k)))
                (block_offsets t) (piece_color t) (rotation_strategy t).
Proof.
  induction k as [|k IH].
  - destruct t as [cp offs col strat]. simpl. f_equal.
    apply Position_eq; simpl; lia.
  - rewrite moved_down_S, IH. unfold move_offset. simpl. f_equal.
    apply Position_eq; simpl; lia.
Qed.

Lemma blocks_moved_down t k :
  blocks (moved_down t k)
  = (λ b, translate b (mkPosition 0 (Z.of_nat k))) <$> blocks t.
Proof.
  rewrite moved_down_eq. unfold blocks. simpl. rewrite <- list_fmap_compose.
  apply list_fmap_ext. intros i p _. simpl. apply translate_swap.
Qed.

(** The result of a returning hard drop. *)
Lemma hard_drop_result fuel : ∀ w t t',
  hard_drop fuel w t = Ok t' →
  ∃ k, t' = moved_down t k
       ∧ (∀ j, (1 ≤ j ≤ k)%nat → is_legal_in (moved_down t j) w = true)
       ∧ is_legal_in (moved_down t (S k)) w = false.
Proof.
  induction fuel as [|fuel IH]; intros w t t' Hrun; [done|].
  simpl in Hrun.
  destruct (is_legal_in (move_offset t MOVE_DOWN) w) eqn:Hdown.
  - apply IH in Hrun as (k & -> & Hlegal & Hstop).
    exists (S k). rewrite moved_down_shift. split; [done|]. split.
    + intros j Hj. destruct j as [|[|j]]; [lia|done|].
      rewrite <- moved_down_shift. apply Hlegal. lia.
    + by rewrite <- moved_down_shift.
  - injection Hrun as <-. exists 0%nat. split; [done|]. split; [|done].
    intros j Hj. lia.
Qed.

Lemma hard_drop_run fuel : ∀ w t k,
  (∀ j, (1 ≤ j ≤ k)%nat → is_legal_in (moved_down t j) w = true) →
  is_legal_in (moved_down t (S k)) w = false →
  (k < fuel)%nat →
  hard_drop fuel w t = Ok (moved_down t k).
Proof.
  induction fuel as [|fuel IH]; intros w t k Hlegal Hstop Hfuel; [lia|].
  simpl. destruct k as [|k].
  - change (move_offset t MOVE_DOWN) with (moved_down t 1).
    by rewrite Hstop.
  - change (move_offset t MOVE_DOWN) with (moved_down t 1).
    rewrite Hlegal by lia. change (moved_down t 1) with (move_offset t MOVE_DOWN).
    rewrite <- moved_down_shift. apply IH; [| |lia].
    + intros j Hj. rewrite moved_down_shift. apply Hlegal. lia.
    + by rewrite moved_down_shift.
Qed.

Lemma first_false (f : nat → bool) (N : nat) :
  f N = false →
  ∃ k, (k ≤ N)%nat ∧ f k = false ∧ ∀ j, (j < k)%nat → f j = true.
Proof.
  revert f. induction N as [|N IH]; intros f HN.
  - exists 0%nat. split; [done|]. split; [done|]. intros j Hj. lia.
  - destruct (f 0%nat) eqn:H0.
    + destruct (IH (λ j, f (S j)) HN) as (k & Hk & Hfk & Hbelow).
      exists (S k). split; [lia|]. split; [done|].
      intros [|j] Hj; [done|]. apply Hbelow. lia.
    + exists 0%nat. split; [lia|]. split; [done|]. intros j Hj. lia.
Qed.

Lemma moved_down_far_illegal w t b (N : nat) :
  wf w → b ∈ blocks t → height w ≤ pos_y b + Z.of_nat N →
  is_legal_in (moved_down t N) w = false.
Proof.
  intros Hwf Hb Hfar. apply not_true_is_false. rewrite is_legal_in_spec.
  intros Hall.
  specialize (Hall (translate b (mkPosition 0 (Z.of_nat N)))).
  rewrite blocks_moved_down in Hall.
  assert (pos_is_free w (translate b (mkPosition 0 (Z.of_nat N))) = true)
    as Hfree.
  { apply Hall. apply list_elem_of_fmap. by exists b. }
  unfold pos_is_free in Hfree.
  destruct (grid w !! _) as [c|] eqn:Hc; [|done].
  assert (in_bounds w (translate b (mkPosition 0 (Z.of_nat N)))) as [_ Hy].
  { apply Hwf. by eexists. }
  simpl in Hy. lia.
Qed.

Lemma hard_drop_total (w : World) (t : Tetrimino) :
  wf w → block_offsets t ≠ [] →
  ∃ k : nat,
    (∀ j, (1 ≤ j ≤ k)%nat → is_legal_in (moved_down t j) w = true)
    ∧ is_legal_in (move_offset (moved_down t k) MOVE_DOWN) w = false
    ∧ (∀ b, b ∈ blocks t → Z.of_nat k ≤ Z.max 0 (height w - 1 - pos_y b))
    ∧ ∀ fuel, (k < fuel)%nat → hard_drop fuel w t = Ok (moved_down t k).
Proof.
  intros Hwf Hne.
  assert (∃ b, b ∈ blocks t) as [b Hb].
  { unfold blocks. destruct (block_offsets t) as [|o offs]; [done|].
    eexists. by left. }
  set (N := Z.to_nat (height w - pos_y b)).
  destruct (first_false (λ j, is_legal_in (moved_down t (S j)) w) N)
    as (k & Hk & Hstop & Hbelow).
  { apply (moved_down_far_illegal w t b); [done..|]. unfold N. lia. }
  exists k. split_and!.
  - intros j Hj. destruct j as [|j]; [lia|]. apply Hbelow. lia.
  - exact Hstop.
  - intros b' Hb'. destruct k as [|k]; [lia|].
    destruct (decide (Z.of_nat (S k) ≤ height w - 1 - pos_y b')); [lia|].
    pose proof (Hbelow k ltac:(lia)) as Hl. simpl in Hl.
    change (move_offset (moved_down t k) MOVE_DOWN)
      with (moved_down t (S k)) in Hl.
    rewrite (moved_down_far_illegal w t b' (S k)) in Hl; [done..|lia].
  - intros fuel Hfuel. apply hard_drop_run; [|done..].
    intros j Hj. destruct j as [|j]; [lia|]. apply Hbelow. lia.
Qed.

(** X15. On a total grid the hard drop of a piece that has a block ends:
    it returns the piece moved down [k] rows, where every position on the
    way was legal and one row further is not; [k] is at most the distance
    of any block to the floor. *)
Theorem X_hard_drop (w : World) (t : Tetrimino) :
  wf w → block_offsets t ≠ [] →
  ∃ k : nat,
    (∀ j, (1 ≤ j ≤ k)%nat → is_legal_in (moved_down t j) w = true)
    ∧ is_legal_in (move_offset (moved_down t k) MOVE_DOWN) w = false
    ∧ (∀ b, b ∈ blocks t → Z.of_nat k ≤ Z.max 0 (height w - 1 - pos_y b))
    ∧ ∀ fuel, (k < fuel)%nat → hard_drop fuel w t = Ok (moved_down t k).
Proof. apply hard_drop_total. Qed.

Lemma X_hard_drop_witness :
  hard_drop 20 World_default l_piece = Ok (moved_down l_piece 16).
Proof.
  destruct (X_hard_drop World_default l_piece) as (k & Hlegal & Hstop & Hk & Hrun).
  - apply World_init_wf.
  - done.
  - assert (Z.of_nat k ≤ 16) as Hle.
    { specialize (Hk (mkPosition 5 3)).
      assert (Z.of_nat k ≤ Z.max 0 (height World_default - 1 - 3)) as H
        by (apply Hk; unfold blocks; simpl; set_solver).
      simpl in H. lia. }
    rewrite (Hrun 20%nat) by lia. f_equal.
    destruct (decide (k = 16%nat)) as [->|Hne]; [done|].
    exfalso. assert (is_legal_in (moved_down l_piece (S k)) World_default = true)
      as Hl.
    { assert (k < 16)%nat as Hlt by lia. clear -Hlt.
      do 16 (destruct k as [|k]; [vm_compute; reflexivity|]). lia. }
    rewrite moved_down_S in Hl. congruence.
Defined.

Lemma hard_drop_no_block fuel : ∀ w t,
  block_offsets t = [] → hard_drop fuel w t = OutOfFuel.
Proof.
  induction fuel as [|fuel IH]; intros w t Hnil; [done|].
  simpl. unfold is_legal_in at 1, blocks. simpl. rewrite Hnil. simpl.
  by apply IH.
Qed.

(** X16. For a piece without blocks every position is legal, so the loop of
    the hard drop never ends and the space key never returns. *)
Theorem X_hard_drop_no_block (fuel : nat) (d1 d2 : Shape) (s : GameState) :
  block_offsets (tetrimino s) = [] →
  hard_drop fuel (world s) (tetrimino s) = OutOfFuel
  ∧ handle_player_input fuel d1 d2 s K_SPACE = OutOfFuel.
Proof.
  intros Hnil. simpl. by rewrite hard_drop_no_block.
Qed.

Lemma X_hard_drop_no_block_witness :
  handle_player_input 500 ShO ShO
    (mkGameState World_default 0 (mkTetrimino (XY 4 2) [] (mkColor 0 0 0)
                                              NO_ROTATION)
                 true 1 0 (mkFactory o_piece))
    K_SPACE
  = OutOfFuel.
Proof. by apply X_hard_drop_no_block. Defined.

Lemma set_tetrimino_same s : set_tetrimino s (tetrimino s) = s.
Proof. by destruct s. Qed.

Lemma accept_tetrimino s t :
  tetrimino (accept s (Some t)) = t ∨ accept s (Some t) = s.
Proof. unfold accept. destruct (is_legal_in t (world s)); [by left|by right]. Qed.

(** The space key on a state: the piece becomes the dropped piece, and
    nothing else changes. *)
Lemma handle_space_result fuel d1 d2 s s' b :
  handle_player_input fuel d1 d2 s K_SPACE = Ok (s', b) →
  b = true
  ∧ ∃ k, s' = set_tetrimino s (moved_down (tetrimino s) k)
         ∧ (∀ j, (1 ≤ j ≤ k)%nat →
              is_legal_in (moved_down (tetrimino s) j) (world s) = true)
         ∧ is_legal_in (moved_down (tetrimino s) (S k)) (world s) = false.
Proof.
  simpl. destruct (hard_drop fuel (world s) (tetrimino s)) as [t| |] eqn:Hd;
    [|done..].
  simpl. intros [= <- <-]. split; [done|].
  apply hard_drop_result in Hd as (k & -> & Hlegal & Hstop).
  exists k. split; [|done]. unfold accept. destruct k as [|k].
  - change (moved_down (tetrimino s) 0) with (tetrimino s).
    rewrite set_tetrimino_same. by destruct (is_legal_in (tetrimino s) (world s)).
  - by rewrite Hlegal by lia.
Qed.

(** X17. After the space key returns, it has asked for an immediate tick,
    the piece stands [k] rows lower with no legal row below it, and a tick
    of the running game then locks it there: the grid becomes the stamped
    and cleared grid and the piece of the supply becomes active. *)
Theorem X_hard_drop_then_tick
    (fuel fuel' : nat) (d d1 d2 : Shape) (s s1 s2 : GameState) (b : bool) :
  running s = true →
  handle_player_input fuel d1 d2 s K_SPACE = Ok (s1, b) →
  update_state fuel' d s1 = Ok s2 →
  b = true
  ∧ ∃ k n,
      tetrimino s1 = moved_down (tetrimino s) k
      ∧ world s1 = world s
      ∧ is_legal_in (move_offset (tetrimino s1) MOVE_DOWN) (world s1) = false
      ∧ clean_full_lines fuel'
          (stamp (piece_color (tetrimino s))
                 (blocks (moved_down (tetrimino s) k)) (world s))
        = Ok (world s2, n)
      ∧ tetrimino s2 = next_tetrimino (t_factory s).
Proof.
  intros Hr Hspace Htick.
  apply handle_space_result in Hspace as (-> & k & -> & Hlegal & Hstop).
  split; [done|].
  unfold update_state in Htick. simpl in Htick. rewrite Hr in Htick.
  change (move_offset (moved_down (tetrimino s) k) MOVE_DOWN)
    with (moved_down (tetrimino s) (S k)) in Htick.
  rewrite Hstop in Htick.
  destruct (clean_full_lines fuel' _) as [[w2 lines]| |] eqn:Hclean;
    [|done..].
  cbn [res_bind] in Htick. unfold _add_cleared_lines in Htick.
  destruct (calculate_score_increase lines) as [inc| |]; [|done..].
  cbn [res_bind pop_next_tetrimino world running t_factory] in Htick.
  injection Htick as <-. exists k, lines. simpl.
  split_and!; try done.
  rewrite <- Hclean. do 2 f_equal. by rewrite moved_down_eq.
Qed.

(** ** What holds throughout a game *)

Lemma World_init_no_full W H : 0 < W → nfull (rows (World_init W H)) = 0%nat.
Proof.
  intros HW. apply rows_no_full; [apply World_init_wf|].
  intros y Hy Hall. destruct (Hall 0) as (c & Hc & Hs); [simpl; lia|].
  simpl in Hc. rewrite init_grid_lookup in Hc.
  destruct (decide _); [|done]. by injection Hc as <-.
Qed.

Lemma World_init_free W H p :
  0 ≤ pos_x p < W → 0 ≤ pos_y p < H → pos_is_free (World_init W H) p = true.
Proof.
  intros Hx Hy. unfold pos_is_free. simpl. rewrite init_grid_lookup.
  by rewrite decide_True.
Qed.

(** Every piece of the catalogue fits a fresh grid of at least 7 × 4. *)
Lemma spawn_legal W H d :
  7 ≤ W → 4 ≤ H → is_legal_in (_choose d) (World_init W H) = true.
Proof.
  intros HW HH. apply is_legal_in_spec. intros b Hb.
  apply World_init_free;
    destruct d; unfold blocks in Hb; simpl in Hb;
    repeat (apply elem_of_cons in Hb as [->|Hb]; [simpl; lia|]);
    by apply elem_of_nil in Hb.
Qed.

Lemma _choose_length d : length (block_offsets (_choose d)) = 4%nat.
Proof. by destruct d. Qed.

Lemma score_increase_value n v :
  calculate_score_increase n = Ok v → 0 ≤ n ≤ 4 ∧ 0 ≤ v ∧ (100 | v).
Proof.
  unfold calculate_score_increase.
  destruct (decide (0 ≤ n ≤ 4)); [|done]. split; [done|].
  repeat (destruct (decide _)); injection H as <-; (split; [lia|]).
  - by exists 1. - by exists 2. - by exists 4. - by exists 8. - by exists 0.
Qed.

Lemma game_inv_create d1 d2 : game_inv (GameState_create d1 d2).
Proof.
  unfold game_inv, GameState_create. simpl.
  split_and!;
    [apply World_init_wf|done|done|by apply World_init_no_full
    |apply _choose_length|left; by apply spawn_legal|done|done|done
    |by exists 0|by eexists].
Qed.

Lemma game_inv_reset d1 d2 s : game_inv s → game_inv (reset d1 d2 s).
Proof.
  intros (_ & Hw & Hh & _). unfold game_inv, reset. simpl.
  rewrite Hw, Hh.
  split_and!;
    [apply World_init_wf|done|done|by apply World_init_no_full
    |apply _choose_length|left; by apply spawn_legal|done|done|done
    |by exists 0|by eexists].
Qed.

Lemma game_inv_set_tetrimino s t :
  game_inv s → length (block_offsets t) = 4%nat →
  is_legal_in t (world s) = true → game_inv (set_tetrimino s t).
Proof.
  intros (Hwf & Hw & Hh & Hnf & _ & _ & Hlevel & Hlines & Hscore & Hdiv
          & Hnext) Hlen Hlegal.
  unfold game_inv. simpl.
  split_and!; [done|done|done|done|done|by left|done|done|done|done|done].
Qed.

Lemma game_inv_accept s t :
  game_inv s → length (block_offsets t) = 4%nat → game_inv (accept s (Some t)).
Proof.
  intros Hinv Hlen. unfold accept.
  destruct (is_legal_in t (world s)) eqn:Hl; [|done].
  by apply game_inv_set_tetrimino.
Qed.

Lemma rotate_right_length t :
  length (block_offsets (rotate_right t)) = length (block_offsets t).
Proof.
  unfold rotate_right. destruct (rotation_strategy t); [done|].
  simpl. apply length_map.
Qed.

Lemma game_inv_input fuel d1 d2 key s s' b :
  game_inv s → handle_player_input fuel d1 d2 s key = Ok (s', b) →
  game_inv s'.
Proof.
  intros Hinv Hrun.
  pose proof Hinv as (_ & _ & _ & _ & Hlen & Hlegal & _).
  destruct key.
  - injection Hrun as <- <-. by apply game_inv_accept.
  - injection Hrun as <- <-. by apply game_inv_accept.
  - apply handle_space_result in Hrun as (_ & k & -> & Hleg & _).
    destruct k as [|k].
    + change (moved_down (tetrimino s) 0) with (tetrimino s).
      by rewrite set_tetrimino_same.
    + apply game_inv_set_tetrimino; [done| |apply Hleg; lia].
      by rewrite moved_down_eq.
  - injection Hrun as <- <-.
    apply game_inv_accept; [done|]. by rewrite rotate_right_length.
  - injection Hrun as <- <-. by apply game_inv_accept.
  - injection Hrun as <- <-. simpl. by apply game_inv_reset.
  - by injection Hrun as <- <-.
  - by injection Hrun as <- <-.
Qed.

Lemma game_inv_update fuel d s s' :
  game_inv s → update_state fuel d s = Ok s' → game_inv s'.
Proof.
  intros Hinv Hrun.
  pose proof Hinv as (Hwf & Hw & Hh & Hnf & Hlen & Hlegal & Hlevel & Hlines
                      & Hscore & Hdiv & d0 & Hnext).
  unfold update_state in Hrun. destruct (running s) eqn:Hr;
    [|by injection Hrun as <-].
  destruct (is_legal_in (move_offset (tetrimino s) MOVE_DOWN) (world s))
    eqn:Hdown.
  - injection Hrun as <-. unfold game_inv. simpl.
    split_and!;
      [done|done|done|done|done|by left|done|done|done|done|by exists d0].
  - set (w1 := stamp _ _ _) in Hrun.
    destruct (clean_full_lines fuel w1) as [[w2 lines]| |] eqn:Hclean;
      [|done..]. cbn [res_bind] in Hrun. unfold _add_cleared_lines in Hrun.
    destruct (calculate_score_increase lines) as [inc| |] eqn:Hinc;
      [|done..].
    cbn [res_bind pop_next_tetrimino world running t_factory score level
         lines_cleared] in Hrun.
    injection Hrun as <-.
    apply score_increase_value in Hinc as (Hn & Hinc0 & Hinc100).
    destruct (clean_full_lines_result fuel w1 w2 lines)
      as (_ & Hwf2 & Hw2 & Hh2 & Hrows); [by apply stamp_wf| |done|].
    { unfold w1. rewrite stamp_width. lia. }
    unfold w1 in Hw2, Hh2. rewrite stamp_width in Hw2.
    rewrite stamp_height in Hh2.
    unfold game_inv. simpl. rewrite Hnext. split_and!.
    + done.
    + congruence.
    + congruence.
    + rewrite Hrows, nfull_app, nfull_replicate_bg, nfull_filter_not_full;
        [done|]. unfold w1. rewrite stamp_width. lia.
    + apply _choose_length.
    + destruct (is_legal_in (_choose d0) w2) eqn:Hl; [by left|].
      right. split; [done|]. by exists d0.
    + done.
    + lia.
    + lia.
    + by apply Z.divide_add_r.
    + by eexists.
Qed.

Lemma reachable_game_inv s : reachable_game s → game_inv s.
Proof.
  induction 1 as [d1 d2|fuel d s s' _ IH Hrun|fuel d1 d2 key s s' b _ IH Hrun].
  - apply game_inv_create.
  - by eapply game_inv_update.
  - by eapply game_inv_input.
Qed.

Lemma solid_count_le_size (g : gmap Position Cell) :
  (solid_count g ≤ size g)%nat.
Proof.
  unfold solid_count. rewrite <- length_map_to_list.
  rewrite <- (length_fmap snd (map_to_list g)). apply length_filter.
Qed.

Lemma length_blocks t : length (blocks t) = length (block_offsets t).
Proof. unfold blocks. apply length_map. Qed.

(** X18. Throughout a game the grid keeps its 10 × 20 rectangle, with an
    entry at exactly its 200 positions, and between two calls no row of it
    is full. *)
Theorem X_game_grid (s : GameState) :
  reachable_game s →
  width (world s) = 10 ∧ height (world s) = 20
  ∧ (∀ p, is_Some (grid (world s) !! p)
          ↔ (0 ≤ pos_x p < 10) ∧ (0 ≤ pos_y p < 20))
  ∧ size (grid (world s)) = 200%nat
  ∧ (∀ y, 0 ≤ y < 20 →
       ∃ x, (0 ≤ x < 10) ∧ ¬ solid_at (grid (world s)) (mkPosition x y)).
Proof.
  intros (Hwf & Hw & Hh & Hnf & _)%reachable_game_inv. split_and!; try done.
  - intros p. rewrite (Hwf p). unfold in_bounds. by rewrite Hw, Hh.
  - rewrite wf_size, Hw, Hh by done. done.
  - intros y Hy. apply nfull_zero_iff in Hnf.
    unfold rows, rows_range in Hnf. rewrite Forall_fmap, Forall_seqZ in Hnf.
    specialize (Hnf y ltac:(lia)). simpl in Hnf.
    unfold full_row, row_of in Hnf. rewrite Forall_fmap in Hnf.
    unfold compose in Hnf. rewrite Hw in Hnf.
    apply not_Forall_Exists in Hnf; [|intros x; apply _].
    apply Exists_exists in Hnf as (x & Hx%elem_of_seqZ & Hns).
    simpl in Hns. exists x. split; [lia|].
    intros (c & Hc & Hs). by rewrite (lookup_total_correct _ _ _ Hc) in Hns.
Qed.

Lemma X_game_grid_witness :
  size (grid (world (GameState_create ShT ShZ))) = 200%nat.
Proof.
  by destruct (X_game_grid _ (reachable_create ShT ShZ))
    as (_ & _ & _ & Hsize & _).
Defined.

(** X19. Throughout a game the active piece has four blocks and the supply
    holds a piece of the catalogue; while the game is running the active
    piece is legal in the grid. *)
Theorem X_game_piece (s : GameState) :
  reachable_game s →
  length (blocks (tetrimino s)) = 4%nat
  ∧ (∃ d, next_tetrimino (t_factory s) = _choose d)
  ∧ (running s = true → is_legal_in (tetrimino s) (world s) = true).
Proof.
  intros (_ & _ & _ & _ & Hlen & Hlegal & _ & _ & _ & _ & Hnext)%reachable_game_inv.
  split_and!; [by rewrite length_blocks|done|].
  intros Hr. destruct Hlegal as [Hl|[Hnr _]]; [done|congruence].
Qed.

Lemma X_game_piece_witness :
  is_legal_in (tetrimino (GameState_create ShT ShZ))
              (world (GameState_create ShT ShZ)) = true.
Proof.
  destruct (X_game_piece _ (reachable_create ShT ShZ)) as (_ & _ & Hl).
  by apply Hl.
Defined.



(** X21. In a game a tick always returns: no [AssertionError] (a lock
    completes at most four rows), no [KeyError], and the clearing loop ends
    within 220 iterations. *)
Theorem X_game_tick_returns (s : GameState) (d : Shape) (fuel : nat) :
  reachable_game s → (221 ≤ fuel)%nat →
  ∃ s', update_state fuel d s = Ok s'.
Proof.
  intros (Hwf & Hw & Hh & Hnf & Hlen & _)%reachable_game_inv Hfuel.
  destruct (running s) eqn:Hr.
  - set (w1 := stamp (piece_color (tetrimino s)) (blocks (tetrimino s))
                     (world s)).
    assert (wf w1) as Hwf1 by (by apply stamp_wf).
    apply update_state_returns; [done|done|lia| |].
    + pose proof (stamp_nfull_bounds (piece_color (tetrimino s))
                    (blocks (tetrimino s)) (world s)) as [_ Hb].
      rewrite length_blocks in Hb. lia.
    + pose proof (solid_count_le_size (grid w1)) as Hle.
      rewrite (wf_size w1 Hwf1) in Hle. unfold w1 in Hle.
      rewrite stamp_width, stamp_height, Hw, Hh in Hle.
      rewrite Hh. lia.
  - exists s. unfold update_state. by rewrite Hr.
Qed.

Lemma X_game_tick_returns_witness :
  ∃ s', update_state 221 ShO (GameState_create ShT ShZ) = Ok s'.
Proof.
  apply X_game_tick_returns; [apply reachable_create|lia].
Defined.

Lemma _choose_first_block d : mkPosition 4 2 ∈ blocks (_choose d).
Proof. destruct d; unfold blocks; simpl; by left. Qed.



(** ** What a lock does *)


Lemma drop_state_space :
  handle_player_input 5 ShO ShO drop_state K_SPACE
  = Ok (set_tetrimino drop_state (moved_down o_piece 2), true).
Proof. vm_compute. reflexivity. Qed.

Lemma drop_state_tick :
  update_state 10 ShI (set_tetrimino drop_state (moved_down o_piece 2))
  = Ok (mkGameState
          (stamp (piece_color o_piece) (blocks (moved_down o_piece 2))
                 (World_init 10 6))
          0 t_piece true 1 0 (mkFactory i_piece)).
Proof. vm_compute. reflexivity. Qed.


Lemma X_hard_drop_then_tick_witness :
  ∃ s1 s2,
    handle_player_input 5 ShO ShO drop_state K_SPACE = Ok (s1, true)
    ∧ update_state 10 ShI s1 = Ok s2
    ∧ tetrimino s2 = t_piece.
Proof.
  eexists _, _. split; [exact drop_state_space|].
  split; [exact drop_state_tick|].
  destruct (X_hard_drop_then_tick 5 10 ShI ShO ShO drop_state _ _ true
              eq_refl drop_state_space drop_state_tick)
    as (_ & k & n & _ & _ & _ & _ & Ht).
  exact Ht.
Defined.

(** X24. When more than four rows are full once the piece is stamped, the
    tick raises the [AssertionError] of the scoring function. *)
Theorem X_lock_assertion (fuel : nat) (d : Shape) (s : GameState) :
  wf (world s) → 0 < width (world s) → running s = true →
  is_legal_in (move_offset (tetrimino s) MOVE_DOWN) (world s) = false →
  (4 < nfull (rows (stamp (piece_color (tetrimino s))
                          (blocks (tetrimino s)) (world s))))%nat →
  (Z.to_nat (height (world s))
   + solid_count (grid (stamp (piece_color (tetrimino s))
                              (blocks (tetrimino s)) (world s))) < fuel)%nat →
  update_state fuel d s = Raise AssertionError.
Proof.
  intros Hwf Hw Hr Hdown Hmany Hfuel. unfold update_state.
  rewrite Hr, Hdown.
  set (w1 := stamp _ _ _) in *.
  assert (wf w1) as Hwf1 by (by apply stamp_wf).
  destruct (clean_full_lines_spec fuel w1) as (w2 & -> & _); [done| | |].
  { unfold w1. by rewrite stamp_width. }
  { rewrite <- solid_count_rows by done. unfold w1 at 1.
    by rewrite stamp_height. }
  cbn [res_bind]. unfold _add_cleared_lines, calculate_score_increase.
  by rewrite decide_False by lia.
Qed.

Lemma five_rows_state_full :
  (4 < nfull (rows (stamp (piece_color (tetrimino five_rows_state))
                          (blocks (tetrimino five_rows_state))
                          (world five_rows_state))))%nat.
Proof. vm_compute. lia. Qed.

Lemma five_rows_state_fuel :
  (Z.to_nat (height (world five_rows_state))
   + solid_count (grid (stamp (piece_color (tetrimino five_rows_state))
                              (blocks (tetrimino five_rows_state))
                              (world five_rows_state))) < 11)%nat.
Proof. vm_compute. lia. Qed.

Lemma X_lock_assertion_witness :
  update_state 11 ShO five_rows_state = Raise AssertionError.
Proof.
  apply X_lock_assertion.
  - apply stamp_wf, World_init_wf.
  - reflexivity.
  - reflexivity.
  - vm_compute. reflexivity.
  - exact five_rows_state_full.
  - exact five_rows_state_fuel.
Defined.

(** ** Starting a game *)

(** X25. A new game starts with a legal piece, and so does a reset on a
    grid of at least 7 columns and 4 rows; on a grid of at most 4 columns
    the piece placed by a reset is never legal, its pivot block being out
    of bounds. *)
Theorem X_spawn (d1 d2 : Shape) (s : GameState) :
  is_legal_in (tetrimino (GameState_create d1 d2))
              (world (GameState_create d1 d2)) = true
  ∧ (7 ≤ width (world s) → 4 ≤ height (world s) →
     is_legal_in (tetrimino (reset d1 d2 s)) (world (reset d1 d2 s)) = true)
  ∧ (width (world s) ≤ 4 →
     is_legal_in (tetrimino (reset d1 d2 s)) (world (reset d1 d2 s)) = false).
Proof.
  split_and!.
  - by apply spawn_legal.
  - intros Hw Hh. by apply spawn_legal.
  - intros Hw. apply not_true_is_false. rewrite is_legal_in_spec.
    intros Hall. specialize (Hall _ (_choose_first_block d1)).
    unfold pos_is_free in Hall. simpl in Hall.
    rewrite init_grid_lookup in Hall. simpl in Hall.
    rewrite decide_False in Hall by lia. done.
Qed.

(** X26. A world constructed with a non-positive width or height has an
    empty mapping: no position is free in it. *)
Theorem X_World_init_empty (W H : Z) (p : Position) :
  W ≤ 0 ∨ H ≤ 0 →
  grid (World_init W H) = ∅ ∧ pos_is_free (World_init W H) p = false.
Proof.
  intros Hdim.
  assert (grid (World_init W H) = ∅) as Hempty.
  { apply map_eq. intros q. simpl. rewrite init_grid_lookup, lookup_empty.
    rewrite decide_False; [done|]. lia. }
  split; [done|]. unfold pos_is_free. by rewrite Hempty, lookup_empty.
Qed.

Lemma X_World_init_empty_witness :
  grid (World_init (-3) 20) = ∅
  ∧ pos_is_free (World_init (-3) 20) (mkPosition 0 0) = false.
Proof. apply X_World_init_empty. lia. Defined.

(** ** Falling tick by tick *)

Lemma set_tetrimino_twice s t t' :
  set_tetrimino (set_tetrimino s t) t' = set_tetrimino s t'.
Proof. done. Qed.

Lemma update_state_fall fuel d s :
  running s = true →
  is_legal_in (move_offset (tetrimino s) MOVE_DOWN) (world s) = true →
  update_state fuel d s
  = Ok (set_tetrimino s (move_offset (tetrimino s) MOVE_DOWN)).
Proof.
  intros Hr Hdown. unfold update_state, set_tetrimino. by rewrite Hr, Hdown.
Qed.

Lemma tick_n_fall fuel d k : ∀ s,
  running s = true →
  (∀ j, (1 ≤ j ≤ k)%nat →
     is_legal_in (moved_down (tetrimino s) j) (world s) = true) →
  tick_n fuel d k s = Ok (set_tetrimino s (moved_down (tetrimino s) k)).
Proof.
  induction k as [|k IH]; intros s Hr Hlegal.
  - simpl. by rewrite set_tetrimino_same.
  - cbn [tick_n]. rewrite update_state_fall; [|done|apply (Hlegal 1%nat); lia].
    cbn [res_bind]. rewrite IH.
    + simpl. by rewrite moved_down_shift.
    + done.
    + intros j Hj. simpl. rewrite moved_down_shift. apply Hlegal. lia.
Qed.

(** X27. In a running game the space key leaves the state that as many
    ticks as the piece can fall would leave: the same piece position, and
    nothing else changed. *)
Theorem X_hard_drop_as_ticks
    (fuel fuel' : nat) (d d1 d2 : Shape) (s s1 : GameState) (b : bool) :
  running s = true →
  handle_player_input fuel d1 d2 s K_SPACE = Ok (s1, b) →
  ∃ k, tick_n fuel' d k s = Ok s1
       ∧ tetrimino s1 = moved_down (tetrimino s) k
       ∧ is_legal_in (move_offset (tetrimino s1) MOVE_DOWN) (world s1) = false.
Proof.
  intros Hr Hspace.
  apply handle_space_result in Hspace as (_ & k & -> & Hlegal & Hstop).
  exists k. split_and!; [by apply tick_n_fall|done|done].
Qed.

Lemma X_hard_drop_as_ticks_witness :
  tick_n 0 ShO 2 drop_state
  = Ok (set_tetrimino drop_state (moved_down o_piece 2)).
Proof.
  destruct (X_hard_drop_as_ticks 5 0 ShO ShO ShO drop_state _ true
              eq_refl drop_state_space) as (k & Hk & Ht & _).
  assert (k = 2%nat) as ->.
  { rewrite !moved_down_eq in Ht. simpl in Ht. injection Ht as Ht. lia. }
  exact Hk.
Defined.
